(** * OrganiseDataset: camera grouping, duplicate scan and removal pass

    A shallow embedding of [solution_organise_dataset.py].  Python strings are
    [string], indices are [nat], the insertion-ordered dictionaries
    [camera_id_indices] and [non_essential_data] are association lists, the
    set [camera_ids] is a [gset string], and the exceptions the code can raise
    are the constructors of [exn].  The image library ([cv2]) and the
    comparator module ([imaging_interview]) are parameters of the section
    [Engine]. *)

From Stdlib Require Import Ascii ZArith DecimalString.
From stdpp Require Import base option list strings gmap sorting.

Local Open Scope Z_scope.
Local Open Scope nat_scope.

(** ** Exceptions and results *)

Inductive exn : Type :=
| FileNotFoundError
| UnboundLocalError
| IndexError.

Inductive result (A : Type) : Type :=
| Ok (a : A)
| Raise (e : exn).

Arguments Ok {A} a.
Arguments Raise {A} e.

Global Instance result_ret : MRet result := @Ok.
Global Instance result_bind : MBind result := fun A B k m =>
  match m with
  | Ok a => k a
  | Raise e => Raise e
  end.

(** A [for] loop whose body may raise: the state is threaded left to right and
    the first exception leaves the loop. *)
Fixpoint for_each {A S : Type} (body : S -> A -> result S) (l : list A) (s : S)
  : result S :=
  match l with
  | [] => Ok s
  | x :: l' => s' ← body s x; for_each body l' s'
  end.

(** [seq[i]]: Python raises [IndexError] out of range. *)
Definition getitem {A : Type} (l : list A) (i : nat) : result A :=
  match l !! i with
  | Some x => Ok x
  | None => Raise IndexError
  end.

(** ** String methods *)

(** [sep in s] for a one-character [sep]. *)
Fixpoint str_contains (sep : ascii) (s : string) : bool :=
  match s with
  | EmptyString => false
  | String c s' => if Ascii.eqb c sep then true else str_contains sep s'
  end.

(** [s.split(sep)[0]]: everything before the first [sep], the whole string when
    there is none. *)
Fixpoint split_head (sep : ascii) (s : string) : string :=
  match s with
  | EmptyString => EmptyString
  | String c s' =>
      if Ascii.eqb c sep then EmptyString else String c (split_head sep s')
  end.

(** [s.startswith(p)]. *)
Fixpoint startswith (s p : string) : bool :=
  match p with
  | EmptyString => true
  | String c p' =>
      match s with
      | EmptyString => false
      | String d s' => Ascii.eqb c d && startswith s' p'
      end
  end.

(** [s.endswith(p)]. *)
Definition endswith (s p : string) : bool :=
  startswith (String.rev s) (String.rev p).

(** [os.path.join(folder, name)] on a POSIX system. *)
Definition os_path_join (folder name : string) : string :=
  if startswith name "/" then name
  else if String.eqb folder "" then name
  else if endswith folder "/" then folder +:+ name
  else folder +:+ "/" +:+ name.

(** [str(n)] for a non-negative [int]. *)
Definition str_of_nat (n : nat) : string :=
  NilEmpty.string_of_uint (Nat.to_uint n).

(** ** Insertion-ordered dictionaries *)

Definition dict (V : Type) : Type := list (string * V).

(** [d[k] = v]: an existing key keeps its position, a new key goes last. *)
Fixpoint dict_set {V : Type} (k : string) (v : V) (d : dict V) : dict V :=
  match d with
  | [] => [(k, v)]
  | (k', v') :: d' =>
      if String.eqb k' k then (k, v) :: d' else (k', v') :: dict_set k v d'
  end.

Definition dict_keys {V : Type} (d : dict V) : list string := d.*1.

Fixpoint dict_get {V : Type} (k : string) (d : dict V) : option V :=
  match d with
  | [] => None
  | (k', v) :: d' => if String.eqb k' k then Some v else dict_get k d'
  end.

(** ** Camera grouping: [get_camera_id_indices] *)

(** [enumerate(l)], with the start index made explicit. *)
Fixpoint enumerate_from {A : Type} (n : nat) (l : list A) : list (nat * A) :=
  match l with
  | [] => []
  | x :: l' => (n, x) :: enumerate_from (S n) l'
  end.

Definition enumerate {A : Type} (l : list A) : list (nat * A) :=
  enumerate_from 0 l.

(** [sorted(...)] on strings: ascending code-point order. *)
Definition sorted (l : list string) : list string := merge_sort String.le l.

(** Lines 45-48: the [.png] entries of the folder, sorted. *)
Definition png_files (entries : list string) : list string :=
  sorted (List.filter (fun file => endswith file ".png") entries).

(** Lines 49-53: the body of the loop that collects the camera ids. *)
Definition add_camera_id (camera_ids : gset string) (file_name : string)
  : gset string :=
  if str_contains "-" file_name then {[ split_head "-" file_name ]} ∪ camera_ids
  else if str_contains "_" file_name then {[ split_head "_" file_name ]} ∪ camera_ids
  else camera_ids.

Definition collect_camera_ids (Image_files : list string) : gset string :=
  foldl add_camera_id ∅ Image_files.

(** Lines 55-59: the list comprehension. *)
Definition indices_with_prefix (Image_files : list string) (ids : string)
  : list nat :=
  (List.filter (fun p : nat * string => startswith p.2 ids)
     (enumerate Image_files)).*1.

(** [listdir] is what [os.listdir(folder_path)] returns, [None] when the
    folder does not exist. *)
Definition get_camera_id_indices (listdir : option (list string))
  : result (dict (list nat) * list string) :=
  match listdir with
  | None => Raise FileNotFoundError
  | Some entries =>
      let Image_files := png_files entries in
      let camera_ids := collect_camera_ids Image_files in
      let camera_id_indices :=
        foldl (fun d ids => dict_set ids (indices_with_prefix Image_files ids) d)
          [] (sorted (elements camera_ids)) in
      Ok (camera_id_indices, Image_files)
  end.

(** ** The image library and the comparator *)

(** What the engine uses of [cv2] and [imaging_interview] on decoded images:
    [preprocess_image_change_detection], the [.shape] of a representation as
    (rows, columns), [cv2.resize] with its (width, height) argument, and the
    score component of [compare_frames_change_detection] (the two other
    components of its result are discarded by the caller). *)
Class Imaging (Image Repr : Type) : Type := {
  preprocess_image_change_detection : Image -> list Z -> Repr;
  shape : Repr -> nat * nat;
  cv2_resize : Repr -> nat * nat -> Repr;
  compare_frames_change_detection : Repr -> Repr -> Z -> Z;
}.

(** ** The observable world of the removal pass *)

Inductive event : Type :=
| OsRemove (path : string)
| Print (line : string).

(** [disk] is the set of paths that exist, all of them regular files the
    process may delete; [trace] records, oldest first, the calls of
    [os.remove] and the lines printed. *)
Record world : Type := World {
  disk : gset string;
  trace : list event;
}.

Definition io (A : Type) : Type := world -> world * result A.

Global Instance io_ret : MRet io := fun A a w => (w, Ok a).
Global Instance io_bind : MBind io := fun A B k m w =>
  match m w with
  | (w', Ok a) => k a w'
  | (w', Raise e) => (w', Raise e)
  end.

Definition io_lift {A : Type} (r : result A) : io A := fun w => (w, r).

Fixpoint io_for {A S : Type} (body : S -> A -> io S) (l : list A) (s : S)
  : io S :=
  match l with
  | [] => mret s
  | x :: l' => s' ← body s x; io_for body l' s'
  end.

(** [os.remove(path)]: the call is recorded; a path that does not exist raises
    [FileNotFoundError] and leaves the disk as it is.  The other ways
    [os.remove] can fail on a path that exists (a directory, a missing
    permission) are outside this model of the disk. *)
Definition os_remove (path : string) : io () := fun w =>
  let called := trace w ++ [OsRemove path] in
  if decide (path ∈ disk w)
  then (World (disk w ∖ {[ path ]}) called, Ok ())
  else (World (disk w) called, Raise FileNotFoundError).

Definition print (line : string) : io () := fun w =>
  (World (disk w) (trace w ++ [Print line]), Ok ()).

Definition report_line (camera_id : string) (count : nat) : string :=
  "In camera:" +:+ camera_id +:+ " total " +:+ str_of_nat count
    +:+ " images are repeated.".

(** ** The engine *)

Section Engine.
Context {Image Repr : Type} `{Imaging Image Repr}.
(** The dataclass field, and [cv2.imread]: [None] for a file that cannot be
    read or decoded. *)
Variable folder_path : string.
Variable imread : string -> option Image.
(** The keyword arguments of [remove_duplicates]. *)
Variable gaussian_blur_radius_list : list Z.
Variable min_contour_area : Z.
Variable min_score : Z.

(** The state of the inner loop: the local variable [prev_frame], [None] while
    it is unbound, and the list [remove_indices]. *)
Definition scan_state : Type := option Repr * list nat.

(** Lines 100-103: the reference is resized when its shape differs from the
    candidate's; the resized value is what [prev_frame] holds afterwards. *)
Definition match_shape (prev_frame next_frame : Repr) : Repr :=
  if decide (shape prev_frame ≠ shape next_frame)
  then cv2_resize prev_frame ((shape next_frame).2, (shape next_frame).1)
  else prev_frame.

(** Lines 87-110: one iteration of the loop over [img_indices]. *)
Definition scan_step (Image_files : list string) (img_indices : list nat)
    (st : scan_state) (img_index : nat) : result scan_state :=
  let '(prev_frame, remove_indices) := st in
  file_name ← getitem Image_files img_index;
  let file_path := os_path_join folder_path file_name in
  match imread file_path with
  | None => Ok (prev_frame, remove_indices ++ [img_index])
  | Some read_image =>
      first ← getitem img_indices 0;
      if decide (img_index = first) then
        Ok (Some (preprocess_image_change_detection read_image
                    gaussian_blur_radius_list), remove_indices)
      else
        let next_frame :=
          preprocess_image_change_detection read_image
            gaussian_blur_radius_list in
        match prev_frame with
        | None => Raise UnboundLocalError
        | Some prev =>
            let prev := match_shape prev next_frame in
            let score :=
              compare_frames_change_detection prev next_frame
                min_contour_area in
            if (score <? min_score)%Z
            then Ok (Some prev, remove_indices ++ [img_index])
            else Ok (Some next_frame, remove_indices)
        end
  end.

(** Lines 85-110: the scan of one camera.  [prev_frame] is whatever the
    variable held when the camera's iteration started. *)
Definition scan_camera (Image_files : list string) (img_indices : list nat)
    (prev_frame : option Repr) : result scan_state :=
  for_each (scan_step Image_files img_indices) img_indices (prev_frame, []).

(** Lines 84-111: the loop over the cameras.  [prev_frame] is a local of the
    whole method, so its value is carried from one camera to the next. *)
Definition camera_step (Image_files : list string)
    (st : option Repr * dict (list nat)) (item : string * list nat)
  : result (option Repr * dict (list nat)) :=
  let '(prev_frame, non_essential_data) := st in
  let '(camera_id, img_indices) := item in
  '(prev_frame', remove_indices) ←
    scan_camera Image_files img_indices prev_frame;
  Ok (prev_frame', dict_set camera_id remove_indices non_essential_data).

Definition decision_loop (camera_id_indices : dict (list nat))
    (Image_files : list string) : result (dict (list nat)) :=
  '(_, non_essential_data) ←
    for_each (camera_step Image_files) camera_id_indices (None, []);
  Ok non_essential_data.

(** Lines 129-135. *)
Definition remove_one (Image_files : list string) (count img_index : nat)
  : io nat :=
  file_name ← io_lift (getitem Image_files img_index);
  let file_path := os_path_join folder_path file_name in
  _ ← os_remove file_path;
  mret (count + 1).

Definition remove_camera (Image_files : list string) (_ : ())
    (item : string * list nat) : io () :=
  let '(camera_id, remove_indices) := item in
  count ← io_for (remove_one Image_files) remove_indices 0;
  print (report_line camera_id count).

Definition remove_ids (non_essential_data : dict (list nat))
    (Image_files : list string) : io () :=
  io_for (remove_camera Image_files) non_essential_data ().

(** Lines 82-115. *)
Definition remove_duplicates (listdir : option (list string)) : io () :=
  '(camera_id_indices, Image_files) ← io_lift (get_camera_id_indices listdir);
  non_essential_data ← io_lift (decision_loop camera_id_indices Image_files);
  match non_essential_data with
  | [] => mret ()
  | _ :: _ => remove_ids non_essential_data Image_files
  end.

End Engine.

(** The entry point: [remove_duplicates] with its default arguments. *)
Definition main {Image Repr : Type} `{Imaging Image Repr}
    (folder_path : string) (imread : string -> option Image)
    (listdir : option (list string)) : io () :=
  remove_duplicates folder_path imread [3; 5; 7]%Z 2000%Z 25000%Z listdir.

(** ** Observations on a trace *)

Definition printed (t : list event) : list string :=
  omap (fun e => match e with Print line => Some line | OsRemove _ => None end) t.

Definition removed (t : list event) : list string :=
  omap (fun e => match e with OsRemove path => Some path | Print _ => None end) t.

(** The path [remove_ids] builds for an index of the file list. *)
Definition path_at (folder_path : string) (Image_files : list string)
    (img_index : nat) : string :=
  os_path_join folder_path (Image_files !!! img_index).

(** What one camera contributes when none of its deletions fails: its
    [os.remove] calls in list order, then its report line. *)
Definition camera_events (folder_path : string) (Image_files : list string)
    (item : string * list nat) : list event :=
  (OsRemove <$> (path_at folder_path Image_files <$> item.2))
    ++ [Print (report_line item.1 (length item.2))].

Definition pass_events (folder_path : string) (Image_files : list string)
    (non_essential_data : dict (list nat)) : list event :=
  non_essential_data ≫= camera_events folder_path Image_files.

(** Strict code-point order on strings. *)
Definition str_lt (a b : string) : Prop := String.ltb a b = true.

(** The files at [indices] can all be deleted, one after the other, from a
    folder whose existing paths are [existing]: every index is a position of
    the file list, the paths are pairwise different, and each one exists. *)
Definition deletable (folder_path : string) (Image_files : list string)
    (existing : gset string) (indices : list nat) : Prop :=
  Forall (fun i => i < length Image_files) indices
  ∧ NoDup (path_at folder_path Image_files <$> indices)
  ∧ Forall (fun i => path_at folder_path Image_files i ∈ existing) indices.

(** ** A concrete image library, for running the engine

    A picture is a uniform frame showing one scene.  Two pictures of the same
    scene have no changed region; two pictures of different scenes differ
    over the whole frame, and the score is that area unless it is below
    [min_contour_area]. *)
Module Demo.

Record picture : Type := Picture {
  rows : nat;
  cols : nat;
  scene : Z;
}.

Definition changed_area (a b : picture) : Z :=
  if decide (scene a = scene b) then 0%Z else Z.of_nat (rows b * cols b).

Global Instance demo_imaging : Imaging picture picture := {|
  preprocess_image_change_detection img _ := img;
  shape r := (rows r, cols r);
  cv2_resize r wh := Picture wh.2 wh.1 (scene r);
  compare_frames_change_detection a b min_contour_area :=
    let area := changed_area a b in
    if (area <? min_contour_area)%Z then 0%Z else area;
|}.

(** A folder is given by its entries: a name and the picture the file decodes
    to, [None] for a file that does not decode. *)
Definition folder : Type := list (string * option picture).

Definition folder_path : string := "data".

Definition imread (fs : folder) (path : string) : option picture :=
  mjoin (dict_get path (prod_map (os_path_join folder_path) id <$> fs)).

Definition listdir (fs : folder) : option (list string) := Some fs.*1.

Definition initial_world (fs : folder) : world :=
  World (list_to_set (os_path_join folder_path <$> fs.*1)) [].

(** The non-essential indices computed for a folder, with the default
    arguments. *)
Definition decide_folder (fs : folder) : result (dict (list nat)) :=
  '(camera_id_indices, Image_files) ← get_camera_id_indices (listdir fs);
  decision_loop folder_path (imread fs) [3; 5; 7]%Z 2000%Z 25000%Z
    camera_id_indices Image_files.

Definition run (fs : folder) : world * result () :=
  main folder_path (imread fs) (listdir fs) (initial_world fs).

Definition frame (s : Z) : option picture := Some (Picture 200 200 s).
Definition corrupt : option picture := None.

End Demo.

(** ** An image library whose resize loses detail

    The pictures and the comparison of [Demo], with a [cv2.resize] that
    keeps the scene when it enlarges a picture and blurs it to scene 0 when
    it shrinks it. *)
Module Lossy.

Definition resize (r : Demo.picture) (wh : nat * nat) : Demo.picture :=
  Demo.Picture wh.2 wh.1
    (if wh.2 * wh.1 <? Demo.rows r * Demo.cols r then 0%Z else Demo.scene r).

Definition lossy_imaging : Imaging Demo.picture Demo.picture := {|
  preprocess_image_change_detection img _ := img;
  shape r := (Demo.rows r, Demo.cols r);
  cv2_resize := resize;
  compare_frames_change_detection a b min_contour_area :=
    let area := Demo.changed_area a b in
    if (area <? min_contour_area)%Z then 0%Z else area;
|}.


(** The score line 104 computes for a reference and a candidate. *)
Definition score (reference candidate : Demo.picture) : Z :=
  @compare_frames_change_detection Demo.picture Demo.picture lossy_imaging
    (@match_shape Demo.picture Demo.picture lossy_imaging reference candidate)
    candidate 2000%Z.

End Lossy.

(** * Properties *)

Example grouping_demo :
  get_camera_id_indices (Some ["c20-2.png"; "notes.txt"; "c10_1.png"; "c10_0.png"])
  = Ok ([("c10", [0; 1]); ("c20", [2])], ["c10_0.png"; "c10_1.png"; "c20-2.png"]).
Proof. vm_compute. reflexivity. Qed.

Example run_demo :
  Demo.run [("c10-1.png", Demo.frame 1); ("c10-2.png", Demo.frame 1);
            ("c10-3.png", Demo.frame 2); ("c20-1.png", Demo.corrupt);
            ("c21-1.png", Demo.frame 5)]
  = (World (list_to_set ["data/c10-1.png"; "data/c10-3.png"; "data/c21-1.png"])
       [OsRemove "data/c10-2.png";
        Print "In camera:c10 total 1 images are repeated.";
        OsRemove "data/c20-1.png";
        Print "In camera:c20 total 1 images are repeated.";
        Print "In camera:c21 total 0 images are repeated."], Ok ()).
Proof. vm_compute. reflexivity. Qed.

(** ** Runs on concrete folders *)

(** C1.  The earliest decodable frame of a camera is not always retained.  In
    the first folder camera [c20] starts with a file that does not decode;
    its first decodable frame, index 2, is then compared with the reference
    left by camera [c10] and is marked non-essential.  In the second folder
    the only camera starts with such a file: no reference was ever assigned,
    and the first decodable frame raises [UnboundLocalError] instead of being
    installed as the reference. *)
Theorem earliest_decodable_frame_not_retained :
  Demo.decide_folder
    [("c10-1.png", Demo.frame 7); ("c20-1.png", Demo.corrupt);
     ("c20-2.png", Demo.frame 7)]
  = Ok [("c10", []); ("c20", [1; 2])]
  ∧ Demo.decide_folder
      [("c20-1.png", Demo.corrupt); ("c20-2.png", Demo.frame 7)]
    = Raise UnboundLocalError.
Proof. split; vm_compute; reflexivity. Qed.

(** C2.  The removals of camera [b] depend on the file of camera [a]: the three
    folders differ only in what [a-1.png] decodes to, and camera [b] gets the
    removal list [1; 2], the removal list [1], or no list at all because the
    run stops with [UnboundLocalError]. *)
Theorem other_camera_changes_removals :
  Demo.decide_folder
    [("a-1.png", Demo.frame 7); ("b-1.png", Demo.corrupt);
     ("b-2.png", Demo.frame 7)]
  = Ok [("a", []); ("b", [1; 2])]
  ∧ Demo.decide_folder
      [("a-1.png", Demo.frame 8); ("b-1.png", Demo.corrupt);
       ("b-2.png", Demo.frame 7)]
    = Ok [("a", []); ("b", [1])]
  ∧ Demo.decide_folder
      [("a-1.png", Demo.corrupt); ("b-1.png", Demo.corrupt);
       ("b-2.png", Demo.frame 7)]
    = Raise UnboundLocalError.
Proof. repeat split; vm_compute; reflexivity. Qed.

(** C4.  With the camera ids [c1] and [c10], both written with the separator
    [-], the file of camera [c10] (index 1) is listed under [c1] as well: the
    index lists are not a partition. *)
Theorem grouping_overlaps_on_prefix_ids :
  get_camera_id_indices (Some ["c10-0.png"; "c1-0.png"])
  = Ok ([("c1", [0; 1]); ("c10", [1])], ["c1-0.png"; "c10-0.png"]).
Proof. vm_compute. reflexivity. Qed.

(** C5.  A file that does not decode in second position is removed and the run
    completes; the same file in first position makes the run stop with
    [UnboundLocalError] at the next frame, before anything is removed or
    reported. *)
Theorem undecodable_first_frame_aborts_scan :
  Demo.run [("c1-0.png", Demo.frame 1); ("c1-1.png", Demo.corrupt)]
  = (World (list_to_set ["data/c1-0.png"])
       [OsRemove "data/c1-1.png";
        Print "In camera:c1 total 1 images are repeated."], Ok ())
  ∧ Demo.run [("c1-0.png", Demo.corrupt); ("c1-1.png", Demo.frame 1)]
    = (World (list_to_set ["data/c1-0.png"; "data/c1-1.png"]) [],
       Raise UnboundLocalError).
Proof. split; vm_compute; reflexivity. Qed.

(** C3, as stated, fails: with two removals for camera [c10] and none for
    camera [c20], the removal pass prints two lines, the second one naming
    [c20] with count 0. *)
Lemma report_names_camera_without_removals :
  let w :=
    (remove_ids "data"
       [("c10", [1; 2]); ("c20", [])]
       ["c10-0.png"; "c10-1.png"; "c10-2.png"; "c20-0.png"]
       (World (list_to_set ["data/c10-0.png"; "data/c10-1.png";
                            "data/c10-2.png"; "data/c20-0.png"]) [])).1 in
  printed (trace w)
  = ["In camera:c10 total 2 images are repeated.";
     "In camera:c20 total 0 images are repeated."]
  ∧ length (printed (trace w)) ≠ 1.
Proof. vm_compute. split; [reflexivity | discriminate]. Qed.


(** ** Strings and the strict order *)

Lemma strict_le_str_lt (a b : string) : strict String.le a b -> str_lt a b.
Proof.
  unfold strict, String.le, str_lt, String.leb, String.ltb.
  rewrite (String.compare_antisym b a).
  destruct (String.compare a b); simpl; intros [Hab Hba]; try done.
  all: exfalso; by apply Hba.
Qed.

Lemma sorted_nodup_strict (l : list string) :
  StronglySorted String.le l -> NoDup l -> StronglySorted str_lt l.
Proof.
  induction 1 as [|x l Hl IH Hx]; intros Hnd; [constructor|].
  apply NoDup_cons in Hnd as [Hnotin Hnd].
  constructor; [by apply IH|].
  rewrite Forall_forall in Hx |- *. intros y Hy.
  apply strict_le_str_lt. split; [by apply Hx|].
  intros Hyx. assert (x = y) as -> by (apply (anti_symm String.le); auto).
  done.
Qed.

Lemma sorted_strict (l : list string) :
  NoDup l -> StronglySorted str_lt (sorted l).
Proof.
  intros Hnd. apply sorted_nodup_strict.
  - apply (StronglySorted_merge_sort String.le).
  - unfold sorted. by rewrite merge_sort_Permutation.
Qed.

Lemma elem_of_sorted (l : list string) (x : string) : x ∈ sorted l <-> x ∈ l.
Proof. unfold sorted. by rewrite merge_sort_Permutation. Qed.

(** ** Dictionaries *)

Lemma dict_set_fresh {V : Type} (k : string) (v : V) (d : dict V) :
  k ∉ dict_keys d -> dict_set k v d = d ++ [(k, v)].
Proof.
  induction d as [|[k' v'] d IH]; simpl; intros Hk; [done|].
  apply not_elem_of_cons in Hk as [Hne Hk].
  destruct (String.eqb k' k) eqn:E.
  - apply String.eqb_eq in E. congruence.
  - by rewrite IH.
Qed.

Lemma dict_keys_app {V : Type} (d1 d2 : dict V) :
  dict_keys (d1 ++ d2) = dict_keys d1 ++ dict_keys d2.
Proof. unfold dict_keys. apply fmap_app. Qed.

Lemma foldl_dict_set_fresh {V : Type} (f : string -> V) (ks : list string) :
  forall d : dict V,
  NoDup ks -> (forall k, k ∈ ks -> k ∉ dict_keys d) ->
  foldl (fun d k => dict_set k (f k) d) d ks = d ++ ((fun k => (k, f k)) <$> ks).
Proof.
  induction ks as [|k ks IH]; intros d Hnd Hfresh; simpl.
  - by rewrite app_nil_r.
  - apply NoDup_cons in Hnd as [Hk Hnd].
    rewrite dict_set_fresh by (apply Hfresh; left).
    rewrite IH; [by rewrite <- app_assoc|done|].
    intros k' Hk'. rewrite dict_keys_app. simpl.
    rewrite elem_of_app, list_elem_of_singleton.
    intros [Hin | ->]; [|done].
    by apply (Hfresh k'); [right|].
Qed.

Lemma dict_get_fmap_key {V : Type} (f : string -> V) (ks : list string) (k : string) :
  k ∈ ks -> dict_get k ((fun k => (k, f k)) <$> ks) = Some (f k).
Proof.
  induction ks as [|k' ks IH]; simpl; [by intros ?%elem_of_nil|].
  intros Hin. destruct (String.eqb k' k) eqn:E.
  - apply String.eqb_eq in E. by subst.
  - apply String.eqb_neq in E. apply elem_of_cons in Hin as [->|Hin]; [done|auto].
Qed.

(** ** Grouping *)

Lemma get_camera_id_indices_shape (entries : list string) :
  get_camera_id_indices (Some entries)
  = Ok ((fun ids => (ids, indices_with_prefix (png_files entries) ids))
          <$> sorted (elements (collect_camera_ids (png_files entries))),
        png_files entries).
Proof.
  unfold get_camera_id_indices. do 2 f_equal.
  rewrite (foldl_dict_set_fresh (indices_with_prefix (png_files entries))); [done| |].
  - unfold sorted. rewrite merge_sort_Permutation. apply NoDup_elements.
  - intros k _. simpl. apply not_elem_of_nil.
Qed.

Lemma enumerate_from_indices {A : Type} (P : nat * A -> bool) (l : list A) :
  forall n,
  StronglySorted lt (List.filter P (enumerate_from n l)).*1
  ∧ Forall (fun i => n <= i) (List.filter P (enumerate_from n l)).*1.
Proof.
  induction l as [|x l IH]; intros n; simpl.
  - split; constructor.
  - destruct (IH (S n)) as [Hs Hf].
    assert (Hlt : Forall (lt n) (List.filter P (enumerate_from (S n) l)).*1).
    { eapply Forall_impl; [exact Hf|]. intros; simpl in *; lia. }
    destruct (P (n, x)); simpl.
    + split; [by constructor|]. constructor; [lia|].
      eapply Forall_impl; [exact Hlt|]. intros; simpl in *; lia.
    + split; [done|]. eapply Forall_impl; [exact Hlt|]. intros; simpl in *; lia.
Qed.

Lemma indices_with_prefix_sorted (Image_files : list string) (ids : string) :
  StronglySorted lt (indices_with_prefix Image_files ids).
Proof. apply (enumerate_from_indices _ Image_files 0). Qed.

Lemma elem_of_enumerate_from {A : Type} (l : list A) :
  forall n i x, l !! i = Some x -> (n + i, x) ∈ enumerate_from n l.
Proof.
  induction l as [|y l IH]; intros n [|i] x Hl; simplify_eq/=.
  - rewrite Nat.add_0_r. left.
  - right. replace (n + S i) with (S n + i) by lia. by apply IH.
Qed.

Lemma elem_of_indices_with_prefix (Image_files : list string) (ids : string)
    (i : nat) (file_name : string) :
  Image_files !! i = Some file_name -> startswith file_name ids = true ->
  i ∈ indices_with_prefix Image_files ids.
Proof.
  intros Hl Hp. unfold indices_with_prefix.
  apply list_elem_of_fmap. exists (i, file_name). split; [done|].
  apply list_elem_of_In, filter_In. split; [|done].
  apply list_elem_of_In. apply (elem_of_enumerate_from Image_files 0 i _ Hl).
Qed.

(** ** Loops *)

Lemma bind_ok {A B : Type} (a : A) (k : A -> result B) : (Ok a ≫= k) = k a.
Proof. reflexivity. Qed.

Lemma for_each_nil {A S : Type} (body : S -> A -> result S) (s : S) :
  for_each body [] s = Ok s.
Proof. reflexivity. Qed.

Lemma for_each_cons {A S : Type} (body : S -> A -> result S) (x : A)
    (l : list A) (s : S) :
  for_each body (x :: l) s = (body s x ≫= for_each body l).
Proof. reflexivity. Qed.

Lemma for_each_app {A S : Type} (body : S -> A -> result S) (l1 l2 : list A) :
  forall s,
  for_each body (l1 ++ l2) s = (s' ← for_each body l1 s; for_each body l2 s').
Proof.
  induction l1 as [|x l1 IH]; intros s; simpl; [done|].
  destruct (body s x) as [s'|e]; simpl; [apply IH|done].
Qed.

Lemma sublist_strongly_sorted {A : Type} (R : relation A) (l1 l2 : list A) :
  l1 `sublist_of` l2 -> StronglySorted R l2 -> StronglySorted R l1.
Proof.
  induction 1 as [|x l1 l2 Hsub IH|x l1 l2 Hsub IH]; intros Hs.
  - constructor.
  - apply StronglySorted_inv in Hs as [Hs Hx].
    constructor; [by apply IH|].
    rewrite Forall_forall in Hx |- *. intros y Hy. apply Hx.
    by eapply elem_of_sublist.
  - apply StronglySorted_inv in Hs as [Hs _]. by apply IH.
Qed.

(** ** The scan of one camera *)

Section ScanFacts.
Context {Image Repr : Type} `{Imaging Image Repr}.
Variable folder_path : string.
Variable imread : string -> option Image.
Variable gaussian_blur_radius_list : list Z.
Variable min_contour_area : Z.
Variable min_score : Z.

Local Abbreviation step :=
  (scan_step folder_path imread gaussian_blur_radius_list min_contour_area
     min_score).
Local Abbreviation scan :=
  (scan_camera folder_path imread gaussian_blur_radius_list min_contour_area
     min_score).
Local Abbreviation normalize img :=
  (preprocess_image_change_detection img gaussian_blur_radius_list).
Local Abbreviation score_of a b :=
  (compare_frames_change_detection a b min_contour_area).

(** A file that does not decode: its index is appended, the reference is left
    as it was, and the iteration does not raise. *)
Lemma step_undecodable (Image_files : list string) (img_indices : list nat)
    (prev_frame : option Repr) (remove_indices : list nat) (i : nat)
    (file_name : string) :
  Image_files !! i = Some file_name ->
  imread (os_path_join folder_path file_name) = None ->
  step Image_files img_indices (prev_frame, remove_indices) i
  = Ok (prev_frame, remove_indices ++ [i]).
Proof. intros Hf Hr. unfold scan_step, getitem. rewrite Hf. simpl. by rewrite Hr. Qed.

(** A decodable file at the first index of the camera: it becomes the
    reference whatever [prev_frame] held. *)
Lemma step_first (Image_files : list string) (img_indices : list nat)
    (prev_frame : option Repr) (remove_indices : list nat) (i : nat)
    (file_name : string) (read_image : Image) :
  Image_files !! i = Some file_name ->
  imread (os_path_join folder_path file_name) = Some read_image ->
  img_indices !! 0 = Some i ->
  step Image_files img_indices (prev_frame, remove_indices) i
  = Ok (Some (normalize read_image), remove_indices).
Proof.
  intros Hf Hr H0. unfold scan_step, getitem. rewrite Hf. simpl.
  rewrite Hr, H0. simpl. by rewrite decide_True.
Qed.

(** A decodable file at a later index, with a reference in place. *)
Lemma step_compare (Image_files : list string) (img_indices : list nat)
    (prev : Repr) (remove_indices : list nat) (i first : nat)
    (file_name : string) (read_image : Image) :
  Image_files !! i = Some file_name ->
  imread (os_path_join folder_path file_name) = Some read_image ->
  img_indices !! 0 = Some first -> i ≠ first ->
  step Image_files img_indices (Some prev, remove_indices) i
  = let next_frame := normalize read_image in
    let reference := match_shape prev next_frame in
    if (score_of reference next_frame <? min_score)%Z
    then Ok (Some reference, remove_indices ++ [i])
    else Ok (Some next_frame, remove_indices).
Proof.
  intros Hf Hr H0 Hne. unfold scan_step, getitem. rewrite Hf. simpl.
  rewrite Hr, H0. simpl. by rewrite decide_False.
Qed.

Lemma step_removals (Image_files : list string) (img_indices : list nat)
    (st st' : scan_state) (i : nat) :
  step Image_files img_indices st i = Ok st' ->
  st'.2 = st.2 ∨ st'.2 = st.2 ++ [i].
Proof.
  destruct st as [prev rem]. unfold scan_step, getitem.
  destruct (Image_files !! i) as [name|]; simpl; [|done].
  destruct (imread _) as [img|]; [|intros [= <-]; by right].
  destruct (img_indices !! 0) as [first|]; simpl; [|done].
  case_decide; [intros [= <-]; by left|].
  destruct prev as [prev|]; [|done].
  destruct (_ <? _)%Z; intros [= <-]; [by right|by left].
Qed.

Lemma for_each_step_removals (Image_files : list string)
    (img_indices todo : list nat) :
  forall st st',
  for_each (step Image_files img_indices) todo st = Ok st' ->
  ∃ extra, st'.2 = st.2 ++ extra ∧ extra `sublist_of` todo.
Proof.
  induction todo as [|i todo IH]; intros st st'; simpl.
  - intros [= <-]. exists []. by rewrite app_nil_r.
  - destruct (step Image_files img_indices st i) as [st1|e] eqn:E; simpl; [|done].
    intros Hrest. apply IH in Hrest as (extra & Heq & Hsub).
    apply step_removals in E as [E|E]; rewrite E in Heq.
    + exists extra. split; [done|]. by apply sublist_cons.
    + exists (i :: extra). rewrite <- app_assoc in Heq. split; [done|].
      by apply sublist_skip.
Qed.

Lemma scan_camera_removals (Image_files : list string) (img_indices : list nat)
    (prev_frame prev_frame' : option Repr) (remove_indices : list nat) :
  scan Image_files img_indices prev_frame = Ok (prev_frame', remove_indices) ->
  remove_indices `sublist_of` img_indices.
Proof.
  intros Hs. apply for_each_step_removals in Hs as (extra & Heq & Hsub).
  simpl in Heq. by subst.
Qed.

(** The loop over the cameras adds one entry per camera, in the order of
    [camera_id_indices], when the camera ids are distinct. *)
Lemma for_each_camera_step (Image_files : list string)
    (camera_id_indices : dict (list nat)) :
  forall prev_frame acc prev_frame' data,
  NoDup (dict_keys camera_id_indices) ->
  (forall k, k ∈ dict_keys camera_id_indices -> k ∉ dict_keys acc) ->
  for_each
    (camera_step folder_path imread gaussian_blur_radius_list min_contour_area
       min_score Image_files)
    camera_id_indices (prev_frame, acc) = Ok (prev_frame', data) ->
  ∃ new, data = acc ++ new
    ∧ Forall2 (fun item out => out.1 = item.1 ∧ out.2 `sublist_of` item.2)
        camera_id_indices new.
Proof.
  induction camera_id_indices as [|[camera_id img_indices] d IH];
    intros prev acc prev' data Hnd Hfresh; simpl.
  - intros [= <- <-]. exists []. by rewrite app_nil_r.
  - destruct (scan Image_files img_indices prev) as [[p1 rem]|e] eqn:E;
      simpl; [|done].
    apply NoDup_cons in Hnd as [Hk Hnd].
    rewrite dict_set_fresh by (apply Hfresh; left).
    intros Hrest. apply IH in Hrest as (new & -> & HF); [|done|].
    + exists ((camera_id, rem) :: new). rewrite <- app_assoc. split; [done|].
      constructor; [|done]. split; [done|]. simpl.
      by eapply scan_camera_removals.
    + intros k Hkd. rewrite dict_keys_app, elem_of_app. simpl.
      rewrite list_elem_of_singleton. intros [Hin| ->]; [|done].
      by apply (Hfresh k); [right|].
Qed.

Lemma decision_loop_entries (Image_files : list string)
    (camera_id_indices non_essential_data : dict (list nat)) :
  NoDup (dict_keys camera_id_indices) ->
  decision_loop folder_path imread gaussian_blur_radius_list min_contour_area
    min_score camera_id_indices Image_files = Ok non_essential_data ->
  Forall2 (fun item out => out.1 = item.1 ∧ out.2 `sublist_of` item.2)
    camera_id_indices non_essential_data.
Proof.
  intros Hnd. unfold decision_loop.
  destruct (for_each _ camera_id_indices _) as [[p data]|e] eqn:E; simpl; [|done].
  intros [= <-]. apply for_each_camera_step in E as (new & -> & HF); [done|done|].
  intros k _. apply not_elem_of_nil.
Qed.

(** C6.  The lower bound of the decision rule is inclusive for retention.  For
    a decodable candidate that is not the first index of its camera, scored
    against the reference (resized to the candidate's shape when the shapes
    differ): a score equal to [min_score] keeps the candidate, nothing is
    appended and the candidate becomes the reference; a score below
    [min_score], in particular [min_score - 1], appends the candidate's index
    and keeps the reference. *)
Theorem threshold_boundary (Image_files : list string) (img_indices : list nat)
    (prev : Repr) (remove_indices : list nat) (i first : nat)
    (file_name : string) (read_image : Image) :
  Image_files !! i = Some file_name ->
  imread (os_path_join folder_path file_name) = Some read_image ->
  img_indices !! 0 = Some first -> i ≠ first ->
  let next_frame := normalize read_image in
  let reference := match_shape prev next_frame in
  (score_of reference next_frame = min_score ->
   step Image_files img_indices (Some prev, remove_indices) i
   = Ok (Some next_frame, remove_indices))
  ∧ ((score_of reference next_frame < min_score)%Z ->
     step Image_files img_indices (Some prev, remove_indices) i
     = Ok (Some reference, remove_indices ++ [i]))
  ∧ (score_of reference next_frame = (min_score - 1)%Z ->
     step Image_files img_indices (Some prev, remove_indices) i
     = Ok (Some reference, remove_indices ++ [i])).
Proof.
  intros Hf Hr H0 Hne next_frame reference.
  rewrite (step_compare _ _ _ _ _ _ _ _ Hf Hr H0 Hne). cbv zeta.
  change (normalize read_image) with next_frame.
  change (match_shape prev next_frame) with reference.
  destruct (Z.ltb_spec (score_of reference next_frame) min_score) as [Hlt|Hge];
    repeat split; intros Hs; try done; lia.
Qed.


End ScanFacts.

(** ** The removal pass *)

Lemma printed_app (t1 t2 : list event) :
  printed (t1 ++ t2) = printed t1 ++ printed t2.
Proof. apply omap_app. Qed.

Lemma removed_app (t1 t2 : list event) :
  removed (t1 ++ t2) = removed t1 ++ removed t2.
Proof. apply omap_app. Qed.

Section RemovalFacts.
Variable folder_path : string.
Variable Image_files : list string.

Local Abbreviation path_of := (path_at folder_path Image_files).

Lemma remove_one_trace (count i : nat) (w w' : world) (r : result nat) :
  remove_one folder_path Image_files count i w = (w', r) ->
  (∃ called, trace w' = trace w ++ called
     ∧ called `prefix_of` [OsRemove (path_of i)])
  ∧ (forall c, r = Ok c ->
       c = count + 1 ∧ trace w' = trace w ++ [OsRemove (path_of i)]).
Proof.
  unfold remove_one, mbind, io_bind, io_lift, getitem, path_at.
  destruct (Image_files !! i) as [name|] eqn:E.
  - rewrite (list_lookup_total_correct _ _ _ E). unfold os_remove.
    case_decide; intros [= <- <-]; simpl; (split; [|by intros c [= <-]]).
    all: by eexists.
  - intros [= <- <-]. split; [|done].
    exists []. rewrite app_nil_r. split; [done|apply prefix_nil].
Qed.

Lemma remove_loop_trace (remove_indices : list nat) :
  forall (count : nat) (w w' : world) (r : result nat),
  io_for (remove_one folder_path Image_files) remove_indices count w = (w', r) ->
  (∃ called, trace w' = trace w ++ called
     ∧ called `prefix_of` (OsRemove <$> (path_of <$> remove_indices)))
  ∧ (forall c, r = Ok c ->
       c = count + length remove_indices
       ∧ trace w' = trace w ++ (OsRemove <$> (path_of <$> remove_indices))).
Proof.
  induction remove_indices as [|i rem IH]; intros count w w' r.
  - intros [= <- <-]. split.
    + exists []. by rewrite app_nil_r.
    + intros c [= <-]. simpl. rewrite app_nil_r. split; [lia|done].
  - cbn [io_for]. unfold mbind at 1, io_bind at 1.
    destruct (remove_one folder_path Image_files count i w) as [w1 [c1|e]] eqn:E1.
    + apply remove_one_trace in E1 as [_ Hok].
      destruct (Hok c1 eq_refl) as [-> Ht1].
      intros Hrest. apply IH in Hrest as [(called & Ht & Hp) Hok'].
      rewrite Ht1, <- app_assoc in Ht. split.
      * eexists. split; [exact Ht|]. simpl. by apply prefix_cons.
      * intros c Hc. destruct (Hok' c Hc) as [-> Ht'].
        rewrite Ht1, <- app_assoc in Ht'. simpl. split; [lia|done].
    + intros [= <- <-]. apply remove_one_trace in E1 as [(called & Ht & Hp) _].
      split; [|done]. exists called. split; [done|].
      etrans; [exact Hp|]. simpl. apply prefix_cons, prefix_nil.
Qed.

Lemma remove_camera_trace (item : string * list nat) (w w' : world)
    (r : result ()) :
  remove_camera folder_path Image_files () item w = (w', r) ->
  (∃ called, trace w' = trace w ++ called
     ∧ called `prefix_of` camera_events folder_path Image_files item)
  ∧ (r = Ok () ->
     trace w' = trace w ++ camera_events folder_path Image_files item).
Proof.
  destruct item as [camera_id rem]. unfold remove_camera, camera_events.
  unfold mbind at 1, io_bind at 1. simpl.
  destruct (io_for _ rem 0 w) as [w1 [c1|e]] eqn:E1.
  - apply remove_loop_trace in E1 as [_ Hok].
    destruct (Hok c1 eq_refl) as [-> Ht1]. simpl.
    unfold print. intros [= <- <-]. simpl. rewrite Ht1, <- app_assoc.
    split; [|done]. by eexists.
  - intros [= <- <-]. apply remove_loop_trace in E1 as [(called & Ht & Hp) _].
    split; [|done]. exists called. split; [done|]. by apply prefix_app_r.
Qed.

Lemma remove_ids_trace (non_essential_data : dict (list nat)) :
  forall (w w' : world) (r : result ()),
  remove_ids folder_path non_essential_data Image_files w = (w', r) ->
  (∃ called, trace w' = trace w ++ called
     ∧ called `prefix_of` pass_events folder_path Image_files non_essential_data)
  ∧ (r = Ok () ->
     trace w' = trace w
                ++ pass_events folder_path Image_files non_essential_data).
Proof.
  unfold remove_ids, pass_events.
  induction non_essential_data as [|item d IH]; intros w w' r.
  - intros [= <- <-]. split; [|by rewrite app_nil_r].
    exists []. by rewrite app_nil_r.
  - cbn [io_for]. unfold mbind at 1, io_bind at 1. rewrite bind_cons.
    destruct (remove_camera folder_path Image_files () item w)
      as [w1 [[]|e]] eqn:E1.
    + apply remove_camera_trace in E1 as [_ Hok]. specialize (Hok eq_refl).
      intros Hrest. apply IH in Hrest as [(called & Ht & Hp) Hok'].
      rewrite Hok, <- app_assoc in Ht. split.
      * eexists. split; [exact Ht|]. by apply prefix_app.
      * intros Hr. rewrite (Hok' Hr), Hok. by rewrite <- app_assoc.
    + intros [= <- <-]. apply remove_camera_trace in E1 as [(called & Ht & Hp) _].
      split; [|done]. exists called. split; [done|]. by apply prefix_app_r.
Qed.

Lemma printed_camera_events (item : string * list nat) :
  printed (camera_events folder_path Image_files item)
  = [report_line item.1 (length item.2)].
Proof.
  unfold camera_events, printed. rewrite omap_app. simpl.
  induction (path_of <$> item.2) as [|p l IH]; [done|]. simpl. exact IH.
Qed.

Lemma removed_camera_events (item : string * list nat) :
  removed (camera_events folder_path Image_files item) = path_of <$> item.2.
Proof.
  unfold camera_events, removed. rewrite omap_app. simpl. rewrite app_nil_r.
  induction (path_of <$> item.2) as [|p l IH]; [done|]. simpl. f_equal. exact IH.
Qed.

Lemma printed_pass_events (d : dict (list nat)) :
  printed (pass_events folder_path Image_files d)
  = (fun item => report_line item.1 (length item.2)) <$> d.
Proof.
  unfold pass_events. induction d as [|item d IH]; [done|].
  rewrite bind_cons, fmap_cons, printed_app, IH.
  by rewrite printed_camera_events.
Qed.

Lemma removed_pass_events (d : dict (list nat)) :
  removed (pass_events folder_path Image_files d) = path_of <$> concat d.*2.
Proof.
  unfold pass_events. induction d as [|item d IH]; [done|].
  rewrite bind_cons, removed_app, IH, removed_camera_events. simpl.
  by rewrite fmap_app.
Qed.

End RemovalFacts.

(** C3, amended.  When the removal pass completes, it has printed exactly one
    report line per camera of the removal mapping, in the mapping's order and
    with the length of the camera's removal list as count; a camera whose
    removal list is empty makes no call of [os.remove] and still gets its
    line, with count 0.  With two removals for one camera and none for
    another, two lines are printed. *)
Theorem report_line_per_camera (folder_path : string)
    (non_essential_data : dict (list nat)) (Image_files : list string)
    (w w' : world) :
  remove_ids folder_path non_essential_data Image_files w = (w', Ok ()) ->
  printed (trace w')
  = printed (trace w)
    ++ ((fun item => report_line item.1 (length item.2)) <$> non_essential_data)
  ∧ trace w'
    = trace w ++ pass_events folder_path Image_files non_essential_data
  ∧ (forall camera_id w0,
       remove_camera folder_path Image_files () (camera_id, []) w0
       = (World (disk w0) (trace w0 ++ [Print (report_line camera_id 0)]), Ok ()))
  ∧ (forall c1 c2 i j,
       non_essential_data = [(c1, [i; j]); (c2, [])] ->
       printed (trace w')
       = printed (trace w) ++ [report_line c1 2; report_line c2 0]).
Proof.
  intros Hrun. apply remove_ids_trace in Hrun as [_ Hok].
  specialize (Hok eq_refl).
  assert (Hprinted : printed (trace w')
    = printed (trace w)
      ++ ((fun item => report_line item.1 (length item.2)) <$> non_essential_data)).
  { by rewrite Hok, printed_app, printed_pass_events. }
  split; [exact Hprinted|]. split; [exact Hok|]. split; [done|].
  intros c1 c2 i j ->. exact Hprinted.
Qed.

(** ** Grouping, end to end *)

Lemma dict_keys_tabulate {V : Type} (f : string -> V) (ks : list string) :
  dict_keys ((fun k => (k, f k)) <$> ks) = ks.
Proof.
  unfold dict_keys. rewrite <- list_fmap_compose.
  induction ks as [|k ks IH]; [done|]. simpl. by f_equal.
Qed.

Lemma grouping_facts (listdir : option (list string)) (d : dict (list nat))
    (Image_files : list string) :
  get_camera_id_indices listdir = Ok (d, Image_files) ->
  StronglySorted str_lt (dict_keys d)
  ∧ NoDup (dict_keys d)
  ∧ Forall (fun item => item.2 = indices_with_prefix Image_files item.1) d.
Proof.
  destruct listdir as [entries|]; [|done].
  rewrite get_camera_id_indices_shape. intros [= <- <-].
  rewrite dict_keys_tabulate. repeat split.
  - apply sorted_strict, NoDup_elements.
  - unfold sorted. rewrite merge_sort_Permutation. apply NoDup_elements.
  - apply Forall_fmap, Forall_forall. by intros.
Qed.

(** C9.  A [.png] file name without [-] and without [_] is still listed under
    every camera id it starts with: its index is in the index list the
    grouping returns for that camera. *)
Theorem unseparated_file_grouped_by_prefix (listdir : option (list string))
    (d : dict (list nat)) (Image_files : list string) (i : nat)
    (file_name camera_id : string) :
  get_camera_id_indices listdir = Ok (d, Image_files) ->
  Image_files !! i = Some file_name ->
  str_contains "-" file_name = false ->
  str_contains "_" file_name = false ->
  camera_id ∈ dict_keys d ->
  startswith file_name camera_id = true ->
  ∃ indices, dict_get camera_id d = Some indices ∧ i ∈ indices.
Proof.
  intros Hg Hf _ _ Hk Hp. destruct listdir as [entries|]; [|done].
  rewrite get_camera_id_indices_shape in Hg. injection Hg as <- <-.
  rewrite dict_keys_tabulate in Hk.
  exists (indices_with_prefix (png_files entries) camera_id). split.
  - by apply dict_get_fmap_key.
  - by eapply elem_of_indices_with_prefix.
Qed.

(** Such a file is then scanned with the camera, and here deleted. *)
Example unseparated_file_deleted :
  Demo.run [("c1-0.png", Demo.frame 1); ("c1.png", Demo.frame 1)]
  = (World (list_to_set ["data/c1-0.png"])
       [OsRemove "data/c1.png";
        Print "In camera:c1 total 1 images are repeated."], Ok ()).
Proof. vm_compute. reflexivity. Qed.

(** ** Orders of the whole run *)

Lemma entries_keys (d data : dict (list nat)) :
  Forall2 (fun item out => out.1 = item.1 ∧ out.2 `sublist_of` item.2) d data ->
  dict_keys data = dict_keys d.
Proof.
  unfold dict_keys. induction 1 as [|item out d data [Hk _] _ IH]; [done|].
  simpl. by f_equal.
Qed.

Lemma entries_sorted (d data : dict (list nat)) :
  Forall2 (fun item out => out.1 = item.1 ∧ out.2 `sublist_of` item.2) d data ->
  Forall (fun item => StronglySorted lt item.2) d ->
  Forall (fun item => StronglySorted lt item.2) data.
Proof.
  induction 1 as [|item out d data [_ Hsub] _ IH]; intros Hs; [done|].
  apply Forall_cons in Hs as [Hs Hrest].
  constructor; [|by apply IH]. by eapply sublist_strongly_sorted.
Qed.

Section EngineFacts.
Context {Image Repr : Type} `{Imaging Image Repr}.
Variable folder_path : string.
Variable imread : string -> option Image.
Variable gaussian_blur_radius_list : list Z.
Variable min_contour_area : Z.
Variable min_score : Z.

Local Abbreviation decide_all :=
  (decision_loop folder_path imread gaussian_blur_radius_list min_contour_area
     min_score).

Lemma decision_loop_facts (listdir : option (list string))
    (camera_id_indices non_essential_data : dict (list nat))
    (Image_files : list string) :
  get_camera_id_indices listdir = Ok (camera_id_indices, Image_files) ->
  decide_all camera_id_indices Image_files = Ok non_essential_data ->
  dict_keys non_essential_data = dict_keys camera_id_indices
  ∧ Forall (fun item => StronglySorted lt item.2) camera_id_indices
  ∧ Forall (fun item => StronglySorted lt item.2) non_essential_data.
Proof.
  intros Hg Hd. apply grouping_facts in Hg as (_ & Hnd & Hidx).
  apply decision_loop_entries in Hd; [|done].
  assert (Hsorted : Forall (fun item : string * list nat =>
                              StronglySorted lt item.2) camera_id_indices).
  { eapply Forall_impl; [exact Hidx|]. intros item ->.
    apply indices_with_prefix_sorted. }
  split; [by eapply entries_keys|]. split; [done|]. by eapply entries_sorted.
Qed.

(** C8.  Every index list of the grouping is strictly increasing; so is every
    removal list the decision loop returns; and the calls of [os.remove] made
    by the removal pass follow the removal lists in their order, camera after
    camera: all of them when the pass completes, an initial part of them
    when a call raises. *)
Theorem ascending_order (listdir : option (list string))
    (camera_id_indices non_essential_data : dict (list nat))
    (Image_files : list string) (w w' : world) (r : result ()) :
  get_camera_id_indices listdir = Ok (camera_id_indices, Image_files) ->
  decide_all camera_id_indices Image_files = Ok non_essential_data ->
  remove_ids folder_path non_essential_data Image_files w = (w', r) ->
  Forall (fun item => StronglySorted lt item.2) camera_id_indices
  ∧ Forall (fun item => StronglySorted lt item.2) non_essential_data
  ∧ (∃ called, removed (trace w') = removed (trace w) ++ called
       ∧ called `prefix_of`
           (path_at folder_path Image_files <$> concat non_essential_data.*2))
  ∧ (r = Ok () ->
     removed (trace w')
     = removed (trace w)
       ++ (path_at folder_path Image_files <$> concat non_essential_data.*2)).
Proof.
  intros Hg Hd Hr.
  destruct (decision_loop_facts _ _ _ _ Hg Hd) as (_ & Hidx & Hrem).
  apply remove_ids_trace in Hr as [(called & Ht & [rest Hp]) Hok].
  split; [done|]. split; [done|]. split.
  - exists (removed called). split; [by rewrite Ht, removed_app|].
    rewrite <- removed_pass_events, Hp, removed_app. by eexists.
  - intros Hr. by rewrite (Hok Hr), removed_app, removed_pass_events.
Qed.

(** C10.  In every run of [remove_duplicates] that gets past the grouping,
    the camera ids of the grouping are in strictly ascending code-point
    order; the decision loop goes through the cameras in that order and,
    when it completes, its result lists them in that order; the removal pass
    then deletes and reports camera after camera in that order: the events
    of the run are those of the cameras in that order, all of them when the
    run completes and an initial part of them when a deletion raises.  A run
    that raises before the removal pass has no event at all. *)
Theorem cameras_in_ascending_order (listdir : option (list string))
    (w w' : world) (r : result ()) :
  remove_duplicates folder_path imread gaussian_blur_radius_list
    min_contour_area min_score listdir w = (w', r) ->
  match get_camera_id_indices listdir with
  | Raise e => r = Raise e ∧ w' = w
  | Ok (camera_id_indices, Image_files) =>
      StronglySorted str_lt (dict_keys camera_id_indices)
      ∧ match
          decision_loop folder_path imread gaussian_blur_radius_list
            min_contour_area min_score camera_id_indices Image_files
        with
        | Raise e => r = Raise e ∧ w' = w
        | Ok non_essential_data =>
            dict_keys non_essential_data = dict_keys camera_id_indices
            ∧ (∃ called, trace w' = trace w ++ called
                 ∧ called `prefix_of`
                     pass_events folder_path Image_files non_essential_data)
            ∧ (r = Ok () ->
               trace w' = trace w
                          ++ pass_events folder_path Image_files
                               non_essential_data
               ∧ printed (trace w')
                 = printed (trace w)
                   ++ ((fun item => report_line item.1 (length item.2))
                         <$> non_essential_data))
        end
  end.
Proof.
  unfold remove_duplicates, mbind, io_bind, io_lift.
  destruct (get_camera_id_indices listdir) as [[d files]|e0] eqn:Hg;
    [|by intros [= <- <-]].
  pose proof (grouping_facts _ _ _ Hg) as (Hsorted & _ & _).
  destruct (decide_all d files) as [data|e1] eqn:Hd;
    [|by intros [= <- <-]].
  destruct (decision_loop_facts _ _ _ _ Hg Hd) as (Hkeys & _ & _).
  intros Hrun. split; [done|]. split; [done|].
  assert (Hpass : remove_ids folder_path data files w = (w', r)).
  { destruct data as [|item data]; [|done]. by injection Hrun as <- <-. }
  apply remove_ids_trace in Hpass as [Hprefix Hok].
  split; [done|]. intros Hr. split; [by apply Hok|].
  by rewrite (Hok Hr), printed_app, printed_pass_events.
Qed.

End EngineFacts.

(** ** The theorems at concrete folders *)

Lemma threshold_boundary_witness :
  let fs := [("c1-0.png", Demo.frame 1); ("c1-1.png", Demo.frame 2)] in
  let files := ["c1-0.png"; "c1-1.png"] in
  scan_step Demo.folder_path (Demo.imread fs) [3; 5; 7]%Z 2000%Z 40000%Z
    files [0; 1] (Some (Demo.Picture 200 200 1), []) 1
  = Ok (Some (Demo.Picture 200 200 2), [])
  ∧ scan_step Demo.folder_path (Demo.imread fs) [3; 5; 7]%Z 2000%Z 40001%Z
      files [0; 1] (Some (Demo.Picture 200 200 1), []) 1
    = Ok (Some (Demo.Picture 200 200 1), [1]).
Proof.
  intros fs files. split.
  - destruct (threshold_boundary (H := Demo.demo_imaging) Demo.folder_path
                (Demo.imread fs) [3; 5; 7]%Z 2000%Z 40000%Z files [0; 1]
                (Demo.Picture 200 200 1) [] 1 0 "c1-1.png"
                (Demo.Picture 200 200 2)) as (Hkeep & _ & _);
      [reflexivity | reflexivity | reflexivity | lia |].
    apply Hkeep. vm_compute. reflexivity.
  - destruct (threshold_boundary (H := Demo.demo_imaging) Demo.folder_path
                (Demo.imread fs) [3; 5; 7]%Z 2000%Z 40001%Z files [0; 1]
                (Demo.Picture 200 200 1) [] 1 0 "c1-1.png"
                (Demo.Picture 200 200 2)) as (_ & _ & Hdrop);
      [reflexivity | reflexivity | reflexivity | lia |].
    apply Hdrop. vm_compute. reflexivity.
Defined.


Lemma report_line_per_camera_witness :
  let files := ["c10-0.png"; "c10-1.png"; "c10-2.png"; "c20-0.png"] in
  let data := [("c10", [1; 2]); ("c20", [])] in
  let w := World (list_to_set (os_path_join "data" <$> files)) [] in
  printed (trace (remove_ids "data" data files w).1)
  = ["In camera:c10 total 2 images are repeated.";
     "In camera:c20 total 0 images are repeated."].
Proof.
  intros files data w.
  destruct (report_line_per_camera "data" data files w
              (remove_ids "data" data files w).1) as (Hprinted & _);
    [vm_compute; reflexivity|].
  exact Hprinted.
Defined.

Lemma unseparated_file_grouped_by_prefix_witness :
  ∃ indices, dict_get "c1" [("c1", [0; 1])] = Some indices ∧ 1 ∈ indices.
Proof.
  apply (unseparated_file_grouped_by_prefix (Some ["c1.png"; "c1-0.png"])
           [("c1", [0; 1])] ["c1-0.png"; "c1.png"] 1 "c1.png" "c1").
  - vm_compute. reflexivity.
  - reflexivity.
  - reflexivity.
  - reflexivity.
  - simpl. apply list_elem_of_here.
  - reflexivity.
Defined.

Lemma ascending_order_witness :
  let fs := [("c10-1.png", Demo.frame 1); ("c10-2.png", Demo.frame 1);
             ("c10-3.png", Demo.frame 1); ("c20-1.png", Demo.frame 2)] in
  let files := ["c10-1.png"; "c10-2.png"; "c10-3.png"; "c20-1.png"] in
  let data := [("c10", [1; 2]); ("c20", [])] in
  Forall (fun item : string * list nat => StronglySorted lt item.2)
    [("c10", [0; 1; 2]); ("c20", [3])]
  ∧ Forall (fun item : string * list nat => StronglySorted lt item.2) data
  ∧ removed (trace (remove_ids Demo.folder_path data files
                      (Demo.initial_world fs)).1)
    = ["data/c10-2.png"; "data/c10-3.png"].
Proof.
  intros fs files data.
  destruct (ascending_order (H := Demo.demo_imaging) Demo.folder_path
              (Demo.imread fs) [3; 5; 7]%Z 2000%Z 25000%Z (Demo.listdir fs)
              [("c10", [0; 1; 2]); ("c20", [3])] data files
              (Demo.initial_world fs)
              (remove_ids Demo.folder_path data files (Demo.initial_world fs)).1
              (Ok ())) as (Hidx & Hrem & _ & Hcalls);
    [vm_compute; reflexivity | vm_compute; reflexivity
    | vm_compute; reflexivity |].
  split; [exact Hidx|]. split; [exact Hrem|]. exact (Hcalls eq_refl).
Defined.

Lemma cameras_in_ascending_order_witness :
  let fs := [("c20-1.png", Demo.frame 2); ("c10-1.png", Demo.frame 1);
             ("c10-2.png", Demo.frame 1)] in
  StronglySorted str_lt ["c10"; "c20"]
  ∧ dict_keys [("c10", [1]); ("c20", @nil nat)] = ["c10"; "c20"]
  ∧ trace (Demo.run fs).1
    = [OsRemove "data/c10-2.png";
       Print "In camera:c10 total 1 images are repeated.";
       Print "In camera:c20 total 0 images are repeated."].
Proof.
  intros fs.
  pose proof (cameras_in_ascending_order (H := Demo.demo_imaging)
                Demo.folder_path (Demo.imread fs) [3; 5; 7]%Z 2000%Z 25000%Z
                (Demo.listdir fs) (Demo.initial_world fs) (Demo.run fs).1
                (Ok ())) as W.
  assert (Hg : get_camera_id_indices (Demo.listdir fs)
               = Ok ([("c10", [0; 1]); ("c20", [2])],
                     ["c10-1.png"; "c10-2.png"; "c20-1.png"]))
    by (vm_compute; reflexivity).
  assert (Hd : decision_loop Demo.folder_path (Demo.imread fs) [3; 5; 7]%Z
                 2000%Z 25000%Z [("c10", [0; 1]); ("c20", [2])]
                 ["c10-1.png"; "c10-2.png"; "c20-1.png"]
               = Ok [("c10", [1]); ("c20", [])])
    by (vm_compute; reflexivity).
  rewrite Hg, Hd in W.
  destruct W as (Hsorted & Hkeys & _ & Htrace); [vm_compute; reflexivity|].
  split; [exact Hsorted|]. split; [exact Hkeys|].
  exact (proj1 (Htrace eq_refl)).
Defined.

(** * Further properties of the grouping *)

Lemma list_filter_permutation {A : Type} (f : A -> bool) (l l' : list A) :
  l ≡ₚ l' -> List.filter f l ≡ₚ List.filter f l'.
Proof.
  induction 1 as [|x l l' _ IH|x y l|l1 l2 l3 _ IH1 _ IH2]; simpl.
  - done.
  - destruct (f x); [by constructor|done].
  - destruct (f x), (f y); try done. apply perm_swap.
  - by etrans.
Qed.

Lemma png_files_permutation (entries entries' : list string) :
  entries ≡ₚ entries' -> png_files entries = png_files entries'.
Proof.
  intros Hp. unfold png_files, sorted.
  apply (Sorted_unique String.le).
  - apply (Sorted_merge_sort String.le).
  - apply (Sorted_merge_sort String.le).
  - rewrite !merge_sort_Permutation. by apply list_filter_permutation.
Qed.

(** X1.  The order in which [os.listdir] returns the entries does not matter:
    two listings of the same entries give the same file list and the same
    grouping. *)
Theorem grouping_ignores_listing_order (entries entries' : list string) :
  entries ≡ₚ entries' ->
  get_camera_id_indices (Some entries) = get_camera_id_indices (Some entries').
Proof.
  intros Hp. rewrite !get_camera_id_indices_shape.
  by rewrite (png_files_permutation _ _ Hp).
Qed.

Lemma elem_of_list_filter {A : Type} (f : A -> bool) (l : list A) (x : A) :
  x ∈ List.filter f l <-> x ∈ l ∧ f x = true.
Proof. rewrite !list_elem_of_In. apply filter_In. Qed.

(** X2.  The file list returned by the grouping holds exactly the entries of
    the folder whose name ends with [.png], each as often as it is listed, in
    ascending order. *)
Theorem image_files_sorted_png (listdir : option (list string))
    (d : dict (list nat)) (Image_files : list string) :
  get_camera_id_indices listdir = Ok (d, Image_files) ->
  ∃ entries, listdir = Some entries
    ∧ Image_files ≡ₚ List.filter (fun file => endswith file ".png") entries
    ∧ StronglySorted String.le Image_files
    ∧ (forall file, file ∈ Image_files
                    <-> file ∈ entries ∧ endswith file ".png" = true).
Proof.
  destruct listdir as [entries|]; [|done].
  rewrite get_camera_id_indices_shape. intros [= _ <-].
  exists entries. split; [done|].
  assert (Hp : png_files entries
               ≡ₚ List.filter (fun file => endswith file ".png") entries).
  { unfold png_files, sorted. apply merge_sort_Permutation. }
  split; [exact Hp|]. split.
  - apply (StronglySorted_merge_sort String.le).
  - intros file. rewrite Hp.
    apply (elem_of_list_filter (fun file => endswith file ".png")).
Qed.

(** The camera id lines 50-53 derive from a file name, written as a relation. *)
Lemma elem_of_add_camera_id (camera_ids : gset string) (file_name x : string) :
  x ∈ add_camera_id camera_ids file_name
  <-> x ∈ camera_ids
      ∨ (str_contains "-" file_name = true ∧ x = split_head "-" file_name)
      ∨ (str_contains "-" file_name = false ∧ str_contains "_" file_name = true
         ∧ x = split_head "_" file_name).
Proof.
  unfold add_camera_id. destruct (str_contains "-" file_name).
  - rewrite elem_of_union, elem_of_singleton. split.
    + intros [->|Hx]; [by right; left|by left].
    + intros [Hx|[[_ ->]|[Hf _]]]; [by right|by left|done].
  - destruct (str_contains "_" file_name).
    + rewrite elem_of_union, elem_of_singleton. split.
      * intros [->|Hx]; [by right; right|by left].
      * intros [Hx|[[Hf _]|(_ & _ & ->)]]; [by right|done|by left].
    + split; [by left|]. by intros [Hx|[[Hf _]|(_ & Hf & _)]].
Qed.

Lemma elem_of_foldl_add_camera_id (l : list string) :
  forall (camera_ids : gset string) (x : string),
  x ∈ foldl add_camera_id camera_ids l
  <-> x ∈ camera_ids
      ∨ ∃ file_name, file_name ∈ l
          ∧ ((str_contains "-" file_name = true ∧ x = split_head "-" file_name)
             ∨ (str_contains "-" file_name = false
                ∧ str_contains "_" file_name = true
                ∧ x = split_head "_" file_name)).
Proof.
  induction l as [|f l IH]; intros camera_ids x; simpl.
  - split; [by left|]. intros [?|(f & Hf & _)]; [done|]. by apply elem_of_nil in Hf.
  - rewrite IH, elem_of_add_camera_id. split.
    + intros [[Hx|Hx]|(g & Hg & Hx)].
      * by left.
      * right. exists f. split; [left|done].
      * right. exists g. split; [by right|done].
    + intros [Hx|(g & Hg & Hx)]; [by left; left|].
      apply elem_of_cons in Hg as [->|Hg].
      * left. by right.
      * right. by exists g.
Qed.

(** X3.  The camera ids of the grouping are exactly the prefixes lines 50-53
    take from the file names: the part before the first [-] of a name that
    has a [-], the part before the first [_] of a name that has a [_] and no
    [-]. *)
Theorem camera_ids_characterised (listdir : option (list string))
    (d : dict (list nat)) (Image_files : list string) (camera_id : string) :
  get_camera_id_indices listdir = Ok (d, Image_files) ->
  camera_id ∈ dict_keys d
  <-> ∃ file_name, file_name ∈ Image_files
        ∧ ((str_contains "-" file_name = true
            ∧ camera_id = split_head "-" file_name)
           ∨ (str_contains "-" file_name = false
              ∧ str_contains "_" file_name = true
              ∧ camera_id = split_head "_" file_name)).
Proof.
  destruct listdir as [entries|]; [|done].
  rewrite get_camera_id_indices_shape. intros [= <- <-].
  rewrite dict_keys_tabulate, elem_of_sorted, elem_of_elements.
  unfold collect_camera_ids. rewrite elem_of_foldl_add_camera_id.
  split; [intros [Hx|Hx]; [by apply not_elem_of_empty in Hx|done]|by right].
Qed.

Lemma elem_of_enumerate_from_inv {A : Type} (l : list A) :
  forall n i x, (i, x) ∈ enumerate_from n l -> n <= i ∧ l !! (i - n) = Some x.
Proof.
  induction l as [|y l IH]; intros n i x; simpl.
  - by intros ?%elem_of_nil.
  - intros [[= -> ->]|Hin]%elem_of_cons.
    + rewrite Nat.sub_diag. split; [lia|done].
    + apply IH in Hin as [Hle Hl]. split; [lia|].
      replace (i - n) with (S (i - S n)) by lia. done.
Qed.

Lemma elem_of_indices_with_prefix_iff (Image_files : list string)
    (ids : string) (i : nat) :
  i ∈ indices_with_prefix Image_files ids
  <-> ∃ file_name, Image_files !! i = Some file_name
        ∧ startswith file_name ids = true.
Proof.
  split.
  - unfold indices_with_prefix. intros ([j f] & -> & Hin)%list_elem_of_fmap.
    apply elem_of_list_filter in Hin as [Hin Hp].
    apply elem_of_enumerate_from_inv in Hin as [_ Hl].
    rewrite Nat.sub_0_r in Hl. by exists f.
  - intros (f & Hl & Hp). by eapply elem_of_indices_with_prefix.
Qed.

Lemma dict_get_tabulate_inv {V : Type} (f : string -> V) (ks : list string)
    (k : string) (v : V) :
  dict_get k ((fun k => (k, f k)) <$> ks) = Some v -> k ∈ ks ∧ v = f k.
Proof.
  induction ks as [|k' ks IH]; simpl; [done|].
  destruct (String.eqb k' k) eqn:E.
  - apply String.eqb_eq in E as ->. intros [= <-]. split; [left|done].
  - intros Hg. apply IH in Hg as [Hin ->]. split; [by right|done].
Qed.

(** X4.  The index list of a camera holds exactly the positions of the file
    names that start with the camera id; in particular every index in it is a
    valid position of the file list. *)
Theorem index_list_characterised (listdir : option (list string))
    (d : dict (list nat)) (Image_files : list string) (camera_id : string)
    (indices : list nat) (i : nat) :
  get_camera_id_indices listdir = Ok (d, Image_files) ->
  dict_get camera_id d = Some indices ->
  (i ∈ indices
   <-> ∃ file_name, Image_files !! i = Some file_name
         ∧ startswith file_name camera_id = true)
  ∧ (i ∈ indices -> i < length Image_files).
Proof.
  destruct listdir as [entries|]; [|done].
  rewrite get_camera_id_indices_shape. intros [= <- <-] Hg.
  apply dict_get_tabulate_inv in Hg as [_ ->].
  split; [apply elem_of_indices_with_prefix_iff|].
  intros (f & Hl & _)%elem_of_indices_with_prefix_iff.
  by eapply lookup_lt_Some.
Qed.

Lemma startswith_split_head (sep : ascii) (s : string) :
  startswith s (split_head sep s) = true.
Proof.
  induction s as [|c s IH]; simpl; [done|].
  destruct (Ascii.eqb c sep); simpl; [done|].
  by rewrite Ascii.eqb_refl.
Qed.

(** The camera id lines 50-53 take from a file name that has a separator. *)
Lemma own_camera_id_listed (listdir : option (list string))
    (d : dict (list nat)) (Image_files : list string) (file_name : string) :
  get_camera_id_indices listdir = Ok (d, Image_files) ->
  file_name ∈ Image_files ->
  str_contains "-" file_name = true ∨ str_contains "_" file_name = true ->
  (if str_contains "-" file_name then split_head "-" file_name
   else split_head "_" file_name) ∈ dict_keys d.
Proof.
  intros Hg Hin Hsep. apply (camera_ids_characterised _ _ _ _ Hg).
  exists file_name. split; [done|].
  destruct (str_contains "-" file_name); [by left|].
  destruct Hsep as [?|Hsep]; [done|]. by right.
Qed.

(** X5.  A file whose name has a separator is always listed under its own
    camera id: the part of the name before the first [-], or before the first
    [_] when the name has no [-]. *)
Theorem separated_file_under_own_camera (listdir : option (list string))
    (d : dict (list nat)) (Image_files : list string) (i : nat)
    (file_name : string) :
  get_camera_id_indices listdir = Ok (d, Image_files) ->
  Image_files !! i = Some file_name ->
  str_contains "-" file_name = true ∨ str_contains "_" file_name = true ->
  ∃ indices,
    dict_get (if str_contains "-" file_name then split_head "-" file_name
              else split_head "_" file_name) d = Some indices
    ∧ i ∈ indices.
Proof.
  intros Hg Hl Hsep.
  assert (Hin : file_name ∈ Image_files) by (apply list_elem_of_lookup; eauto).
  pose proof (own_camera_id_listed _ _ _ _ Hg Hin Hsep) as Hk.
  destruct listdir as [entries|]; [|done].
  rewrite get_camera_id_indices_shape in Hg. injection Hg as <- <-.
  rewrite dict_keys_tabulate in Hk.
  eexists. split; [by apply dict_get_fmap_key|].
  eapply elem_of_indices_with_prefix; [exact Hl|].
  destruct (str_contains "-" file_name); apply startswith_split_head.
Qed.

(** X6.  Every camera of the grouping has at least one file: no index list is
    empty, so [img_indices[0]] exists for every camera. *)
Theorem camera_index_lists_nonempty (listdir : option (list string))
    (d : dict (list nat)) (Image_files : list string) (camera_id : string)
    (indices : list nat) :
  get_camera_id_indices listdir = Ok (d, Image_files) ->
  (camera_id, indices) ∈ d ->
  ∃ first, indices !! 0 = Some first.
Proof.
  intros Hg Hin.
  assert (Hk : camera_id ∈ dict_keys d).
  { unfold dict_keys. apply list_elem_of_fmap. by exists (camera_id, indices). }
  apply (camera_ids_characterised _ _ _ _ Hg) in Hk as (f & Hf & Hid).
  apply grouping_facts in Hg as (_ & _ & Hidx).
  rewrite Forall_forall in Hidx. specialize (Hidx _ Hin). simpl in Hidx.
  apply list_elem_of_lookup in Hf as [i Hl].
  assert (Hi : i ∈ indices).
  { rewrite Hidx. eapply elem_of_indices_with_prefix; [exact Hl|].
    destruct Hid as [[_ ->]|(_ & _ & ->)]; apply startswith_split_head. }
  destruct indices as [|first rest]; [by apply elem_of_nil in Hi|by exists first].
Qed.

(** * Further properties of the scan *)

Lemma for_each_ext {A S : Type} (f g : S -> A -> result S) (l : list A) :
  (forall s x, f s x = g s x) -> forall s, for_each f l s = for_each g l s.
Proof.
  intros Hfg. induction l as [|x l IH]; intros s; simpl; [done|].
  rewrite Hfg. destruct (g s x); simpl; [apply IH|done].
Qed.

Section ScanMore.
Context {Image Repr : Type} `{Imaging Image Repr}.
Variable folder_path : string.
Variable imread : string -> option Image.
Variable gaussian_blur_radius_list : list Z.
Variable min_contour_area : Z.
Variable min_score : Z.
Variable Image_files : list string.

Local Abbreviation step :=
  (scan_step folder_path imread gaussian_blur_radius_list min_contour_area
     min_score Image_files).
Local Abbreviation scan :=
  (scan_camera folder_path imread gaussian_blur_radius_list min_contour_area
     min_score Image_files).
Local Abbreviation undecodable i :=
  (∃ file_name, Image_files !! i = Some file_name
     ∧ imread (os_path_join folder_path file_name) = None).
Local Abbreviation decodable i :=
  (∃ file_name read_image, Image_files !! i = Some file_name
     ∧ imread (os_path_join folder_path file_name) = Some read_image).
Local Abbreviation with_removals r res :=
  (match res with
   | Ok (prev_frame, extra) => Ok (prev_frame, r ++ extra)
   | Raise e => Raise e
   end).

(** The loop body looks at [img_indices] only through its first element. *)
Lemma step_same_first (img_indices img_indices' : list nat) (st : scan_state)
    (i : nat) :
  img_indices !! 0 = img_indices' !! 0 ->
  step img_indices st i = step img_indices' st i.
Proof. intros Heq. unfold scan_step, getitem. by rewrite Heq. Qed.

(** The loop body only appends to [remove_indices]. *)
Lemma step_with_removals (img_indices : list nat) (prev_frame : option Repr)
    (r : list nat) (i : nat) :
  step img_indices (prev_frame, r) i
  = with_removals r (step img_indices (prev_frame, []) i).
Proof.
  unfold scan_step, getitem.
  destruct (Image_files !! i) as [name|]; simpl; [|done].
  destruct (imread _) as [img|]; [|done].
  destruct (img_indices !! 0) as [first|]; simpl; [|done].
  case_decide; [by rewrite app_nil_r|].
  destruct prev_frame as [prev|]; [|done].
  destruct (_ <? _)%Z; [done|by rewrite app_nil_r].
Qed.

Lemma for_each_with_removals (img_indices todo : list nat) :
  forall (prev_frame : option Repr) (r : list nat),
  for_each (step img_indices) todo (prev_frame, r)
  = with_removals r (for_each (step img_indices) todo (prev_frame, [])).
Proof.
  induction todo as [|i todo IH]; intros prev r.
  - simpl. by rewrite app_nil_r.
  - rewrite !for_each_cons, (step_with_removals _ _ r).
    destruct (step img_indices (prev, []) i) as [[p1 e1]|e]; [|done].
    rewrite !bind_ok, (IH p1 (r ++ e1)), (IH p1 e1).
    destruct (for_each (step img_indices) todo (p1, [])) as [[p2 e2]|e];
      [|done].
    by rewrite app_assoc.
Qed.

(** X7.  A camera none of whose files decodes: every index is marked
    non-essential, [prev_frame] is left as it was, and nothing is raised. *)
Theorem all_undecodable_all_removed (img_indices : list nat)
    (prev_frame : option Repr) :
  Forall (fun i =>
            ∃ file_name, Image_files !! i = Some file_name
              ∧ imread (os_path_join folder_path file_name) = None)
    img_indices ->
  scan_camera folder_path imread gaussian_blur_radius_list min_contour_area
    min_score Image_files img_indices prev_frame
  = Ok (prev_frame, img_indices).
Proof.
  intros Hall. unfold scan_camera.
  enough (Hgen : forall todo r, Forall (fun i => undecodable i) todo ->
            for_each (step img_indices) todo (prev_frame, r)
            = Ok (prev_frame, r ++ todo)) by (by apply (Hgen img_indices [])).
  induction todo as [|i todo IH]; intros r Htodo.
  - simpl. by rewrite app_nil_r.
  - apply Forall_cons in Htodo as [(name & Hf & Hr) Htodo].
    rewrite for_each_cons, (step_undecodable _ _ _ _ _ _ _ _ _ _ _ Hf Hr).
    rewrite bind_ok, IH by done. by rewrite <- app_assoc.
Qed.

Lemma step_total (img_indices : list nat) (prev : Repr) (r : list nat)
    (i first : nat) :
  i < length Image_files -> img_indices !! 0 = Some first ->
  ∃ prev' r', step img_indices (Some prev, r) i = Ok (Some prev', r').
Proof.
  intros [name Hf]%lookup_lt_is_Some_2 H0. unfold scan_step, getitem.
  rewrite Hf. simpl. destruct (imread _) as [img|]; [|by eauto].
  rewrite H0. simpl. case_decide; [by eauto|].
  destruct (_ <? _)%Z; by eauto.
Qed.

Lemma for_each_step_total (img_indices todo : list nat) (first : nat) :
  img_indices !! 0 = Some first ->
  Forall (fun i => i < length Image_files) todo ->
  forall prev r,
  ∃ prev' r', for_each (step img_indices) todo (Some prev, r) = Ok (Some prev', r').
Proof.
  intros H0. induction 1 as [|i todo Hi _ IH]; intros prev r; [by eauto|].
  destruct (step_total img_indices prev r i first Hi H0) as (p1 & r1 & E).
  rewrite for_each_cons, E, bind_ok. apply IH.
Qed.

(** What an index in the removal list says about its file. *)
Lemma step_appended (img_indices : list nat) (st st' : scan_state) (i : nat) :
  step img_indices st i = Ok st' ->
  st'.2 = st.2
  ∨ (st'.2 = st.2 ++ [i] ∧ (undecodable i ∨ img_indices !! 0 ≠ Some i)).
Proof.
  destruct st as [prev r]. unfold scan_step, getitem.
  destruct (Image_files !! i) as [name|] eqn:Hf; simpl; [|done].
  destruct (imread _) as [img|] eqn:Hr; [|intros [= <-]; right; by eauto].
  destruct (img_indices !! 0) as [first|]; simpl; [|done].
  case_decide as Hne; [intros [= <-]; by left|].
  destruct prev as [prev|]; [|done].
  destruct (_ <? _)%Z; intros [= <-]; [|by left].
  right. split; [done|]. right. by intros [= ->].
Qed.

Lemma for_each_step_appended (img_indices todo : list nat) :
  forall st st' x,
  for_each (step img_indices) todo st = Ok st' ->
  x ∈ st'.2 ->
  x ∈ st.2 ∨ (x ∈ todo ∧ (undecodable x ∨ img_indices !! 0 ≠ Some x)).
Proof.
  induction todo as [|i todo IH]; intros st st' x.
  - intros [= <-]. by left.
  - rewrite for_each_cons.
    destruct (step img_indices st i) as [st1|e] eqn:E; [|done].
    rewrite bind_ok. intros Hrest Hx.
    destruct (IH _ _ _ Hrest Hx) as [Hx1|[Hin Hwhy]];
      [|right; split; [by right|done]].
    apply step_appended in E as [E|[E Hwhy]]; rewrite E in Hx1; [by left|].
    apply elem_of_app in Hx1 as [Hx1|Hx1%list_elem_of_singleton]; [by left|].
    subst x. right. split; [left|done].
Qed.

Lemma for_each_step_undecodable (img_indices todo : list nat) :
  forall st st' x,
  for_each (step img_indices) todo st = Ok st' ->
  (x ∈ st.2 -> x ∈ st'.2) ∧ (x ∈ todo -> undecodable x -> x ∈ st'.2).
Proof.
  induction todo as [|i todo IH]; intros st st' x.
  - intros [= <-]. split; [done|]. by intros ?%elem_of_nil.
  - rewrite for_each_cons.
    destruct (step img_indices st i) as [st1|e] eqn:E; [|done].
    rewrite bind_ok. intros Hrest. destruct (IH _ _ x Hrest) as [Hkeep Hnew].
    assert (Hmono : x ∈ st.2 -> x ∈ st1.2).
    { intros Hx. apply step_removals in E as [->| ->]; [done|].
      apply elem_of_app. by left. }
    split; [by auto|].
    intros [->|Hin]%elem_of_cons Hbad; [|by auto].
    apply Hkeep. destruct Hbad as (name & Hf & Hr). destruct st as [prev r].
    rewrite (step_undecodable _ _ _ _ _ _ _ _ _ _ _ Hf Hr) in E.
    injection E as <-. simpl. apply elem_of_app. right. left.
Qed.

Lemma step_raises (img_indices : list nat) (st : scan_state) (i first : nat)
    (e : exn) :
  i < length Image_files -> img_indices !! 0 = Some first ->
  step img_indices st i = Raise e -> e = UnboundLocalError.
Proof.
  intros [name Hf]%lookup_lt_is_Some_2 H0. destruct st as [prev r].
  unfold scan_step, getitem. rewrite Hf. simpl.
  destruct (imread _) as [img|]; [|done]. rewrite H0. simpl.
  case_decide; [done|]. destruct prev as [prev|]; [|by intros [= <-]].
  by destruct (_ <? _)%Z.
Qed.

Lemma for_each_step_raises (img_indices todo : list nat) (first : nat) (e : exn) :
  img_indices !! 0 = Some first ->
  Forall (fun i => i < length Image_files) todo ->
  forall st, for_each (step img_indices) todo st = Raise e ->
  e = UnboundLocalError.
Proof.
  intros H0. induction 1 as [|i todo Hi _ IH]; intros st; [done|].
  rewrite for_each_cons.
  destruct (step img_indices st i) as [st1|e1] eqn:E.
  - rewrite bind_ok. apply IH.
  - intros [= <-]. by eapply step_raises.
Qed.

Lemma scan_camera_raises (img_indices : list nat) (prev_frame : option Repr)
    (e : exn) :
  Forall (fun i => i < length Image_files) img_indices ->
  scan img_indices prev_frame = Raise e -> e = UnboundLocalError.
Proof.
  intros Hrange. destruct img_indices as [|first rest] eqn:E; [done|].
  rewrite <- E in *. apply (for_each_step_raises img_indices img_indices first).
  - by subst.
  - done.
Qed.

(** X8.  When the first file of a camera decodes and all its indices are
    valid, the scan of the camera completes, its outcome does not depend on
    what [prev_frame] held before, a reference is in place afterwards, and the
    first index is not marked non-essential. *)
Theorem first_decodable_scan_succeeds (img_indices : list nat) (first : nat)
    (file_name : string) (read_image : Image) :
  img_indices !! 0 = Some first ->
  Image_files !! first = Some file_name ->
  imread (os_path_join folder_path file_name) = Some read_image ->
  Forall (fun i => i < length Image_files) img_indices ->
  ∃ reference remove_indices,
    (forall prev_frame,
       scan_camera folder_path imread gaussian_blur_radius_list
         min_contour_area min_score Image_files img_indices prev_frame
       = Ok (Some reference, remove_indices))
    ∧ first ∉ remove_indices.
Proof.
  intros H0 Hf Hr Hrange.
  destruct img_indices as [|j rest] eqn:E; [done|]. injection H0 as ->.
  rewrite <- E in *. assert (H0 : img_indices !! 0 = Some first) by by subst.
  assert (Hrest : Forall (fun i => i < length Image_files) rest).
  { subst img_indices. by apply Forall_cons in Hrange as [_ ?]. }
  destruct (for_each_step_total img_indices rest first H0 Hrest
              (preprocess_image_change_detection read_image
                 gaussian_blur_radius_list) []) as (ref & rem & Hscan).
  exists ref, rem. split.
  - intros prev. unfold scan_camera. rewrite E at 2.
    rewrite for_each_cons, (step_first _ _ _ _ _ _ _ _ _ _ _ _ Hf Hr H0).
    by rewrite bind_ok.
  - intros Hin.
    destruct (for_each_step_appended _ _ _ _ _ Hscan Hin)
      as [Hnil|[_ [(name & Hf' & Hr')|Hne]]].
    + by apply elem_of_nil in Hnil.
    + congruence.
    + done.
Qed.

(** X9.  In a completed scan every file of the camera that does not decode is
    marked non-essential, and a file marked non-essential is a file of the
    camera that either does not decode or is not the camera's first index. *)
Theorem removal_list_and_decoding (img_indices : list nat)
    (prev_frame prev_frame' : option Repr) (remove_indices : list nat)
    (i : nat) :
  scan_camera folder_path imread gaussian_blur_radius_list min_contour_area
    min_score Image_files img_indices prev_frame
  = Ok (prev_frame', remove_indices) ->
  (i ∈ img_indices ->
   (∃ file_name, Image_files !! i = Some file_name
      ∧ imread (os_path_join folder_path file_name) = None) ->
   i ∈ remove_indices)
  ∧ (i ∈ remove_indices ->
     i ∈ img_indices
     ∧ ((∃ file_name, Image_files !! i = Some file_name
           ∧ imread (os_path_join folder_path file_name) = None)
        ∨ img_indices !! 0 ≠ Some i)).
Proof.
  intros Hscan. split.
  - intros Hin Hbad.
    by apply (for_each_step_undecodable _ _ _ _ i Hscan).
  - intros Hin.
    destruct (for_each_step_appended _ _ _ _ _ Hscan Hin) as [Hnil|Hcase];
      [by apply elem_of_nil in Hnil|done].
Qed.

(** X10.  A file that does not decode, anywhere after the first position of a
    camera's sequence, is isolated: with it in the sequence the scan ends with
    the same reference and marks the same other indices as without it, plus
    its own index at its place; and it raises the same exception, if any. *)
Theorem undecodable_entry_isolated (l1 l2 : list nat) (i : nat)
    (file_name : string) (prev_frame : option Repr) :
  l1 ≠ [] ->
  Image_files !! i = Some file_name ->
  imread (os_path_join folder_path file_name) = None ->
  (forall prev_frame' remove_indices,
     scan_camera folder_path imread gaussian_blur_radius_list min_contour_area
       min_score Image_files (l1 ++ l2) prev_frame
     = Ok (prev_frame', remove_indices) ->
     ∃ rem1 rem2,
       remove_indices = rem1 ++ rem2
       ∧ rem1 `sublist_of` l1 ∧ rem2 `sublist_of` l2
       ∧ scan_camera folder_path imread gaussian_blur_radius_list
           min_contour_area min_score Image_files (l1 ++ i :: l2) prev_frame
         = Ok (prev_frame', rem1 ++ i :: rem2))
  ∧ (forall e,
       scan_camera folder_path imread gaussian_blur_radius_list
         min_contour_area min_score Image_files (l1 ++ l2) prev_frame
       = Raise e ->
       scan_camera folder_path imread gaussian_blur_radius_list
         min_contour_area min_score Image_files (l1 ++ i :: l2) prev_frame
       = Raise e).
Proof.
  intros Hl1 Hf Hr. unfold scan_camera.
  assert (Hhead : (l1 ++ i :: l2) !! 0 = (l1 ++ l2) !! 0) by by destruct l1.
  rewrite (for_each_ext (step (l1 ++ i :: l2)) (step (l1 ++ l2)))
    by (intros; by apply step_same_first).
  rewrite !for_each_app.
  destruct (for_each (step (l1 ++ l2)) l1 (prev_frame, [])) as [[p1 r1]|e1] eqn:E1;
    [|split; [done|by intros e [= <-]]].
  rewrite !bind_ok, for_each_cons.
  rewrite (step_undecodable _ _ _ _ _ _ _ _ _ _ _ Hf Hr), bind_ok.
  rewrite (for_each_with_removals _ l2 p1 (r1 ++ [i])).
  rewrite (for_each_with_removals _ l2 p1 r1).
  destruct (for_each (step (l1 ++ l2)) l2 (p1, [])) as [[p2 e2]|e2] eqn:E2;
    [|split; [done|by intros e [= <-]]].
  split; [|done]. intros prev' rem [= <- <-]. exists r1, e2.
  apply for_each_step_removals in E1 as (x1 & Hx1 & Hs1).
  apply for_each_step_removals in E2 as (x2 & Hx2 & Hs2).
  simpl in *. subst. split; [done|]. split; [done|]. split; [done|].
  by rewrite <- app_assoc.
Qed.

End ScanMore.

(** * Further properties of the removal pass *)

Section RemovalMore.
Variable folder_path : string.
Variable Image_files : list string.

Local Abbreviation path_of := (path_at folder_path Image_files).
Local Abbreviation paths_of l := (path_at folder_path Image_files <$> l).

Lemma remove_one_unfold (count i : nat) (w : world) :
  remove_one folder_path Image_files count i w
  = match Image_files !! i with
    | None => (w, Raise IndexError)
    | Some _ =>
        if decide (path_of i ∈ disk w)
        then (World (disk w ∖ {[ path_of i ]}) (trace w ++ [OsRemove (path_of i)]),
              Ok (count + 1))
        else (World (disk w) (trace w ++ [OsRemove (path_of i)]),
              Raise FileNotFoundError)
    end.
Proof.
  unfold remove_one, mbind, io_bind, io_lift, getitem, path_at.
  destruct (Image_files !! i) as [name|] eqn:E; [|done].
  rewrite (list_lookup_total_correct _ _ _ E). unfold os_remove.
  by case_decide.
Qed.

Lemma deletable_nil (existing : gset string) :
  deletable folder_path Image_files existing [].
Proof. repeat split; constructor. Qed.

Lemma deletable_cons (existing : gset string) (i : nat) (l : list nat) :
  deletable folder_path Image_files existing (i :: l)
  <-> i < length Image_files ∧ path_of i ∈ existing
      ∧ deletable folder_path Image_files (existing ∖ {[ path_of i ]}) l.
Proof.
  unfold deletable. rewrite fmap_cons, NoDup_cons, !Forall_cons.
  split.
  - intros ([Hi Hl] & [Hnotin Hnd] & [Hp Hex]). repeat split; try done.
    rewrite Forall_forall in Hex |- *. intros j Hj.
    apply elem_of_difference. split; [by apply Hex|].
    rewrite elem_of_singleton. intros Heq. apply Hnotin.
    rewrite <- Heq. apply list_elem_of_fmap. by exists j.
  - intros (Hi & Hp & Hl & Hnd & Hex). repeat split; try done.
    + intros (j & Heq & Hj)%list_elem_of_fmap.
      rewrite Forall_forall in Hex. specialize (Hex j Hj).
      apply elem_of_difference in Hex as [_ Hne].
      apply Hne. rewrite elem_of_singleton. done.
    + eapply Forall_impl; [exact Hex|]. intros j Hj. simpl in Hj.
      by apply elem_of_difference in Hj as [? _].
Qed.

Lemma deletable_app (existing : gset string) (l1 l2 : list nat) :
  deletable folder_path Image_files existing (l1 ++ l2)
  <-> deletable folder_path Image_files existing l1
      ∧ deletable folder_path Image_files
          (existing ∖ list_to_set (paths_of l1)) l2.
Proof.
  revert existing. induction l1 as [|i l1 IH]; intros existing.
  - simpl. rewrite difference_empty_L.
    split; [intros ?; split; [apply deletable_nil|done]|]. by intros [_ ?].
  - assert (Heq : existing ∖ {[path_of i]} ∖ list_to_set (paths_of l1)
                  = existing ∖ list_to_set (paths_of (i :: l1))).
    { apply set_eq. intros x.
      rewrite fmap_cons, list_to_set_cons, !elem_of_difference, elem_of_union.
      tauto. }
    rewrite <- Heq, <- app_comm_cons, !deletable_cons, IH. tauto.
Qed.

Lemma remove_loop_disk (remove_indices : list nat) :
  forall (count : nat) (w w' : world) (r : result nat),
  io_for (remove_one folder_path Image_files) remove_indices count w = (w', r) ->
  ((∃ c, r = Ok c)
   <-> deletable folder_path Image_files (disk w) remove_indices)
  ∧ ((∃ c, r = Ok c) ->
     disk w' = disk w ∖ list_to_set (paths_of remove_indices))
  ∧ disk w' ⊆ disk w
  ∧ disk w ∖ list_to_set (paths_of remove_indices) ⊆ disk w'
  ∧ (forall e, r = Raise e ->
       Forall (fun i => i < length Image_files) remove_indices ->
       e = FileNotFoundError).
Proof.
  induction remove_indices as [|i rem IH]; intros count w w' r.
  - intros [= <- <-]. simpl. rewrite difference_empty_L.
    split; [split; [intros; apply deletable_nil|by eauto]|]. done.
  - cbn [io_for]. unfold mbind at 1, io_bind at 1. rewrite remove_one_unfold.
    rewrite deletable_cons, fmap_cons, list_to_set_cons.
    destruct (Image_files !! i) as [name|] eqn:E.
    + apply lookup_lt_Some in E. case_decide as Hp.
      * intros Hrest. apply IH in Hrest as (Hiff & Heq & Hsub & Hkeep & Hexn).
        simpl in *. split; [rewrite Hiff; tauto|].
        split; [intros Hok; rewrite (Heq Hok); apply set_eq; intros x;
                rewrite !elem_of_difference, elem_of_union; tauto|].
        split; [intros x Hx; apply Hsub in Hx;
                by apply elem_of_difference in Hx as [? _]|].
        split; [|intros e He [_ Hr]%Forall_cons; by apply Hexn].
        intros x Hx. apply Hkeep. revert Hx.
        rewrite !elem_of_difference, elem_of_union. tauto.
      * intros [= <- <-]. simpl.
        split; [split; [by intros [c ?]|tauto]|].
        split; [by intros [c ?]|]. split; [done|].
        split; [|by intros e [= <-]].
        intros x. rewrite elem_of_difference. tauto.
    + apply lookup_ge_None in E. intros [= <- <-].
      split; [split; [by intros [c ?]|lia]|].
      split; [by intros [c ?]|]. split; [done|].
      split; [|intros e _ [Hi _]%Forall_cons; lia].
      intros x. rewrite elem_of_difference. tauto.
Qed.

Lemma remove_ids_disk (non_essential_data : dict (list nat)) :
  forall (w w' : world) (r : result ()),
  remove_ids folder_path non_essential_data Image_files w = (w', r) ->
  (r = Ok ()
   <-> deletable folder_path Image_files (disk w)
         (concat non_essential_data.*2))
  ∧ (r = Ok () ->
     disk w' = disk w ∖ list_to_set (paths_of (concat non_essential_data.*2)))
  ∧ disk w' ⊆ disk w
  ∧ disk w ∖ list_to_set (paths_of (concat non_essential_data.*2)) ⊆ disk w'
  ∧ (forall e, r = Raise e ->
       Forall (fun i => i < length Image_files)
         (concat non_essential_data.*2) ->
       e = FileNotFoundError).
Proof.
  unfold remove_ids.
  induction non_essential_data as [|[camera_id rem] d IH]; intros w w' r.
  - intros [= <- <-]. simpl. rewrite difference_empty_L.
    split; [split; [intros; apply deletable_nil|done]|]. done.
  - cbn [io_for]. unfold mbind at 1, io_bind at 1.
    unfold remove_camera at 1. unfold mbind at 1, io_bind at 1.
    change (concat ((camera_id, rem) :: d).*2) with (rem ++ concat d.*2).
    pose proof (deletable_app (disk w) rem (concat d.*2)) as Happ.
    rewrite fmap_app, list_to_set_app_L.
    destruct (io_for (remove_one folder_path Image_files) rem 0 w)
      as [w1 [c|e1]] eqn:E1;
      apply remove_loop_disk in E1 as (Hiff1 & Heq1 & Hsub1 & Hkeep1 & Hexn1).
    + assert (Hok1 : ∃ c0 : nat, Ok c = Ok c0) by eauto.
      specialize (Heq1 Hok1). apply Hiff1 in Hok1. unfold print. simpl.
      intros Hrest. apply IH in Hrest as (Hiff & Heq & Hsub & Hkeep & Hexn).
      simpl in *. rewrite Heq1 in *.
      split; [rewrite Hiff; tauto|].
      split; [intros Hok; rewrite (Heq Hok); apply set_eq; intros x;
              rewrite !elem_of_difference, elem_of_union; tauto|].
      split; [intros x Hx; apply Hsub in Hx;
              by apply elem_of_difference in Hx as [? _]|].
      split; [|intros e He [_ Hr]%Forall_app; by apply Hexn].
      intros x Hx. apply Hkeep. revert Hx.
      rewrite !elem_of_difference, elem_of_union. tauto.
    + intros [= <- <-].
      assert (Hno : ¬ deletable folder_path Image_files (disk w) rem).
      { intros Hd. apply Hiff1 in Hd as [c ?]. done. }
      split; [split; [done|tauto]|]. split; [done|]. split; [done|].
      split; [|intros e [= <-] [Hr _]%Forall_app; by apply Hexn1].
      intros x Hx. apply Hkeep1. revert Hx.
      rewrite !elem_of_difference, elem_of_union. tauto.
Qed.

(** X13.  The removal pass never creates a file and never deletes a file that
    is not listed: afterwards, whether the pass completed or raised, the
    existing paths are among those that existed before, and every path that
    existed before and is not the path of a listed index still exists.  When
    the pass completes, exactly the listed paths are gone. *)
Theorem removal_pass_disk_effect (non_essential_data : dict (list nat))
    (w w' : world) (r : result ()) :
  remove_ids folder_path non_essential_data Image_files w = (w', r) ->
  (forall path, path ∈ disk w' -> path ∈ disk w)
  ∧ (forall path, path ∈ disk w ->
       path ∉ paths_of (concat non_essential_data.*2) -> path ∈ disk w')
  ∧ (r = Ok () ->
     disk w' = disk w ∖ list_to_set (paths_of (concat non_essential_data.*2))).
Proof.
  intros Hrun. apply remove_ids_disk in Hrun as (_ & Heq & Hsub & Hkeep & _).
  split; [intros p Hp; by apply Hsub|]. split; [|done].
  intros p Hp Hnot. apply Hkeep, elem_of_difference. split; [done|].
  by rewrite elem_of_list_to_set.
Qed.

(** X14.  The removal pass completes only if every listed index is a position
    of the file list and the paths of the listed indices, taken over all
    cameras, are pairwise different and all exist beforehand: an index that
    is out of range, a file that is missing, or an index listed twice (under
    two cameras, say) makes it raise. *)
Theorem removal_pass_completes_only_if (non_essential_data : dict (list nat))
    (w : world) :
  (remove_ids folder_path non_essential_data Image_files w).2 = Ok () ->
  deletable folder_path Image_files (disk w) (concat non_essential_data.*2).
Proof.
  destruct (remove_ids folder_path non_essential_data Image_files w)
    as [w' r] eqn:E.
  apply remove_ids_disk in E as (Hiff & _). apply Hiff.
Qed.

End RemovalMore.

(** * Further properties of the whole run *)

Lemma grouping_in_range (listdir : option (list string)) (d : dict (list nat))
    (Image_files : list string) :
  get_camera_id_indices listdir = Ok (d, Image_files) ->
  Forall (fun item => Forall (fun i => i < length Image_files) item.2) d.
Proof.
  intros Hg. apply grouping_facts in Hg as (_ & _ & Hidx).
  eapply Forall_impl; [exact Hidx|]. intros item ->.
  apply Forall_forall. intros i (f & Hl & _)%elem_of_indices_with_prefix_iff.
  by eapply lookup_lt_Some.
Qed.

Lemma entries_in_range (Image_files : list string) (d data : dict (list nat)) :
  Forall2 (fun item out => out.1 = item.1 ∧ out.2 `sublist_of` item.2) d data ->
  Forall (fun item => Forall (fun i => i < length Image_files) item.2) d ->
  Forall (fun i => i < length Image_files) (concat data.*2).
Proof.
  induction 1 as [|item out d data [_ Hsub] _ IH]; intros Hr; [constructor|].
  apply Forall_cons in Hr as [Hitem Hrest]. simpl. apply Forall_app. split.
  - rewrite Forall_forall in Hitem |- *. intros i Hi. apply Hitem.
    by eapply elem_of_sublist.
  - by apply IH.
Qed.

Lemma foldl_add_camera_id_none (l : list string) (camera_ids : gset string) :
  Forall (fun f => str_contains "-" f = false ∧ str_contains "_" f = false) l ->
  foldl add_camera_id camera_ids l = camera_ids.
Proof.
  induction 1 as [|f l [H1 H2] _ IH]; simpl; [done|].
  unfold add_camera_id at 2. by rewrite H1, H2.
Qed.

(** X15.  A folder none of whose [.png] files has a [-] or a [_] in its name
    (an empty folder, for one) has no camera: the grouping is empty. *)
Theorem no_separator_no_camera (entries : list string) :
  (forall f, f ∈ entries -> endswith f ".png" = true ->
             str_contains "-" f = false ∧ str_contains "_" f = false) ->
  get_camera_id_indices (Some entries) = Ok ([], png_files entries).
Proof.
  intros Hnone. rewrite get_camera_id_indices_shape.
  unfold collect_camera_ids. rewrite foldl_add_camera_id_none.
  - by rewrite elements_empty.
  - apply Forall_forall. intros f Hf. unfold png_files in Hf.
    apply (proj1 (elem_of_sorted _ _)) in Hf.
    apply (proj1 (elem_of_list_filter
                    (fun file => endswith file ".png") _ _)) in Hf
      as [Hin Hpng].
    by apply Hnone.
Qed.

Section RunMore.
Context {Image Repr : Type} `{Imaging Image Repr}.
Variable folder_path : string.
Variable imread : string -> option Image.
Variable gaussian_blur_radius_list : list Z.
Variable min_contour_area : Z.
Variable min_score : Z.

Local Abbreviation scan :=
  (scan_camera folder_path imread gaussian_blur_radius_list min_contour_area
     min_score).
Local Abbreviation cam_step :=
  (camera_step folder_path imread gaussian_blur_radius_list min_contour_area
     min_score).
Local Abbreviation decide_all :=
  (decision_loop folder_path imread gaussian_blur_radius_list min_contour_area
     min_score).
Local Abbreviation run :=
  (remove_duplicates folder_path imread gaussian_blur_radius_list
     min_contour_area min_score).
Local Abbreviation first_decodes Image_files item :=
  (∃ first file_name read_image,
     item.2 !! 0 = Some first ∧ Image_files !! first = Some file_name
     ∧ imread (os_path_join folder_path file_name) = Some read_image).

(** X16.  With such a folder [remove_duplicates] returns normally without
    deleting or printing anything. *)
Theorem no_separator_no_removal (entries : list string) (w : world) :
  (forall f, f ∈ entries -> endswith f ".png" = true ->
             str_contains "-" f = false ∧ str_contains "_" f = false) ->
  remove_duplicates folder_path imread gaussian_blur_radius_list
    min_contour_area min_score (Some entries) w
  = (w, Ok ()).
Proof.
  intros Hnone. unfold remove_duplicates, mbind, io_bind, io_lift.
  by rewrite (no_separator_no_camera _ Hnone).
Qed.

Lemma for_each_camera_step_alone (Image_files : list string)
    (d : dict (list nat)) :
  forall prev_frame acc,
  NoDup (dict_keys d) ->
  (forall k, k ∈ dict_keys d -> k ∉ dict_keys acc) ->
  Forall (fun item => first_decodes Image_files item) d ->
  Forall (fun item => Forall (fun i => i < length Image_files) item.2) d ->
  ∃ prev_frame' new,
    for_each (cam_step Image_files) d (prev_frame, acc)
    = Ok (prev_frame', acc ++ new)
    ∧ Forall2 (fun item out =>
                 out.1 = item.1
                 ∧ ∃ reference,
                     scan Image_files item.2 None = Ok (Some reference, out.2))
        d new.
Proof.
  induction d as [|[camera_id img_indices] d IH];
    intros prev acc Hnd Hfresh Hfirst Hrange.
  - exists prev, []. rewrite app_nil_r. split; [done|constructor].
  - apply NoDup_cons in Hnd as [Hk Hnd].
    apply Forall_cons in Hfirst as [(first & name & img & H0 & Hf & Hr) Hfirst].
    apply Forall_cons in Hrange as [Hidx Hrange]. simpl in H0, Hidx.
    destruct (first_decodable_scan_succeeds folder_path imread
                gaussian_blur_radius_list min_contour_area min_score
                Image_files img_indices first name img H0 Hf Hr Hidx)
      as (ref & rem & Hscan & _).
    rewrite for_each_cons. unfold camera_step at 2.
    rewrite (Hscan prev), !bind_ok.
    rewrite dict_set_fresh by (apply Hfresh; left).
    destruct (IH (Some ref) (acc ++ [(camera_id, rem)])) as (p' & new & E & HF);
      [done| |done|done|].
    + intros k Hkd. rewrite dict_keys_app, elem_of_app. simpl.
      rewrite list_elem_of_singleton. intros [Hin| ->]; [|done].
      by apply (Hfresh k); [right|].
    + exists p', ((camera_id, rem) :: new). rewrite E, <- app_assoc.
      split; [done|]. constructor; [|done]. split; [done|]. by exists ref.
Qed.

(** X11.  When the first file of every camera decodes, the decision loop
    completes and the removal list it records for a camera is the one a scan
    of that camera alone, started without any reference, produces: no camera
    influences another. *)
Theorem cameras_independent_when_first_frames_decode
    (listdir : option (list string)) (camera_id_indices : dict (list nat))
    (Image_files : list string) :
  get_camera_id_indices listdir = Ok (camera_id_indices, Image_files) ->
  Forall (fun item =>
            ∃ first file_name read_image,
              item.2 !! 0 = Some first
              ∧ Image_files !! first = Some file_name
              ∧ imread (os_path_join folder_path file_name) = Some read_image)
    camera_id_indices ->
  ∃ non_essential_data,
    decision_loop folder_path imread gaussian_blur_radius_list
      min_contour_area min_score camera_id_indices Image_files
    = Ok non_essential_data
    ∧ Forall2 (fun item out =>
                 out.1 = item.1
                 ∧ ∃ reference,
                     scan_camera folder_path imread gaussian_blur_radius_list
                       min_contour_area min_score Image_files item.2 None
                     = Ok (Some reference, out.2))
        camera_id_indices non_essential_data.
Proof.
  intros Hg Hfirst. pose proof (grouping_in_range _ _ _ Hg) as Hrange.
  apply grouping_facts in Hg as (_ & Hnd & _).
  destruct (for_each_camera_step_alone Image_files camera_id_indices None [])
    as (p' & new & E & HF); [done| |done|done|].
  - intros k _. apply not_elem_of_nil.
  - exists new. split; [|done]. unfold decision_loop.
    destruct (for_each _ camera_id_indices _) as [[p data]|e]; [|done].
    by injection E as -> ->.
Qed.

Lemma for_each_camera_step_raises (Image_files : list string)
    (d : dict (list nat)) (e : exn) :
  Forall (fun item => Forall (fun i => i < length Image_files) item.2) d ->
  forall st, for_each (cam_step Image_files) d st = Raise e ->
  e = UnboundLocalError.
Proof.
  induction 1 as [|[camera_id img_indices] d Hidx _ IH]; intros [prev acc];
    [done|].
  rewrite for_each_cons. unfold camera_step at 2.
  destruct (scan Image_files img_indices prev) as [[p1 rem]|e1] eqn:E.
  - rewrite !bind_ok. apply IH.
  - intros [= <-]. by eapply scan_camera_raises.
Qed.

(** X12.  A run of [remove_duplicates] never raises [IndexError]; when it
    raises [UnboundLocalError], or when the folder does not exist (which
    raises [FileNotFoundError]), nothing has been deleted or printed. *)
Theorem run_errors (listdir : option (list string)) (w w' : world)
    (r : result ()) :
  remove_duplicates folder_path imread gaussian_blur_radius_list
    min_contour_area min_score listdir w = (w', r) ->
  r ≠ Raise IndexError
  ∧ (r = Raise UnboundLocalError -> w' = w)
  ∧ (listdir = None -> r = Raise FileNotFoundError ∧ w' = w).
Proof.
  unfold remove_duplicates, mbind, io_bind, io_lift.
  destruct (get_camera_id_indices listdir) as [[d files]|e0] eqn:Hg.
  - pose proof (grouping_in_range _ _ _ Hg) as Hrange.
    pose proof (grouping_facts _ _ _ Hg) as (_ & Hnd & _).
    assert (Hsome : listdir ≠ None) by (by destruct listdir).
    destruct (decide_all d files) as [data|e1] eqn:Hd.
    + pose proof (decision_loop_entries _ _ _ _ _ _ _ _ Hnd Hd) as HF.
      pose proof (entries_in_range _ _ _ HF Hrange) as Hdata.
      destruct data as [|item data].
      * intros [= <- <-]. done.
      * intros Hrun.
        apply remove_ids_disk in Hrun as (_ & _ & _ & _ & Hexn).
        split; [|split; [|done]].
        -- intros ->. by specialize (Hexn _ eq_refl Hdata).
        -- intros ->. by specialize (Hexn _ eq_refl Hdata).
    + intros [= <- <-]. unfold decision_loop in Hd.
      destruct (for_each (cam_step files) d (None, [])) as [[p data]|e2] eqn:E;
        [done|].
      injection Hd as <-.
      apply for_each_camera_step_raises in E as ->; done.
  - intros [= <- <-]. destruct listdir as [entries|]; [done|].
    injection Hg as <-. done.
Qed.

End RunMore.

(** * The further properties at concrete folders *)

Lemma grouping_ignores_listing_order_witness :
  get_camera_id_indices (Some ["c20-1.png"; "c10-1.png"])
  = get_camera_id_indices (Some ["c10-1.png"; "c20-1.png"]).
Proof. apply grouping_ignores_listing_order. apply perm_swap. Defined.

Lemma image_files_sorted_png_witness :
  StronglySorted String.le ["a-1.png"; "b-1.png"]
  ∧ (forall file, file ∈ ["a-1.png"; "b-1.png"]
       <-> file ∈ ["b-1.png"; "notes.txt"; "a-1.png"]
           ∧ endswith file ".png" = true).
Proof.
  destruct (image_files_sorted_png (Some ["b-1.png"; "notes.txt"; "a-1.png"])
              [("a", [0]); ("b", [1])] ["a-1.png"; "b-1.png"])
    as (entries & Hl & _ & Hs & Hin); [vm_compute; reflexivity|].
  injection Hl as <-. split; [exact Hs|exact Hin].
Defined.

Lemma camera_ids_characterised_witness :
  "c10" ∈ dict_keys [("c10", [0; 1]); ("c20", [2])]
  <-> ∃ file_name, file_name ∈ ["c10_0.png"; "c10_1.png"; "c20-2.png"]
        ∧ ((str_contains "-" file_name = true
            ∧ "c10" = split_head "-" file_name)
           ∨ (str_contains "-" file_name = false
              ∧ str_contains "_" file_name = true
              ∧ "c10" = split_head "_" file_name)).
Proof.
  apply (camera_ids_characterised
           (Some ["c20-2.png"; "c10_1.png"; "c10_0.png"])).
  vm_compute. reflexivity.
Defined.

Lemma index_list_characterised_witness :
  (1 ∈ [0; 1]
   <-> ∃ file_name,
         ["c10_0.png"; "c10_1.png"; "c20-2.png"] !! 1 = Some file_name
         ∧ startswith file_name "c10" = true)
  ∧ (1 ∈ [0; 1] -> 1 < length ["c10_0.png"; "c10_1.png"; "c20-2.png"]).
Proof.
  apply (index_list_characterised
           (Some ["c20-2.png"; "c10_1.png"; "c10_0.png"])
           [("c10", [0; 1]); ("c20", [2])]).
  - vm_compute. reflexivity.
  - reflexivity.
Defined.

Lemma separated_file_under_own_camera_witness :
  ∃ indices,
    dict_get "c20" [("c10", [0; 1]); ("c20", [2])] = Some indices
    ∧ 2 ∈ indices.
Proof.
  apply (separated_file_under_own_camera
           (Some ["c20-2.png"; "c10_1.png"; "c10_0.png"])
           [("c10", [0; 1]); ("c20", [2])]
           ["c10_0.png"; "c10_1.png"; "c20-2.png"] 2 "c20-2.png").
  - vm_compute. reflexivity.
  - reflexivity.
  - left. reflexivity.
Defined.

Lemma camera_index_lists_nonempty_witness :
  ∃ first, [0; 1] !! 0 = Some first.
Proof.
  apply (camera_index_lists_nonempty
           (Some ["c20-2.png"; "c10_1.png"; "c10_0.png"])
           [("c10", [0; 1]); ("c20", [2])]
           ["c10_0.png"; "c10_1.png"; "c20-2.png"] "c10").
  - vm_compute. reflexivity.
  - apply list_elem_of_here.
Defined.

Lemma all_undecodable_all_removed_witness :
  let fs := [("c1-0.png", Demo.corrupt); ("c1-1.png", Demo.corrupt)] in
  scan_camera Demo.folder_path (Demo.imread fs) [3; 5; 7]%Z 2000%Z 25000%Z
    ["c1-0.png"; "c1-1.png"] [0; 1] (Some (Demo.Picture 200 200 4))
  = Ok (Some (Demo.Picture 200 200 4), [0; 1]).
Proof.
  intros fs.
  apply (all_undecodable_all_removed (H := Demo.demo_imaging)).
  apply List.Forall_cons; [by exists "c1-0.png"|].
  apply List.Forall_cons; [by exists "c1-1.png"|].
  apply List.Forall_nil.
Defined.

Lemma first_decodable_scan_succeeds_witness :
  let fs := [("c1-0.png", Demo.frame 1); ("c1-1.png", Demo.frame 1)] in
  ∃ reference remove_indices,
    (forall prev_frame,
       scan_camera Demo.folder_path (Demo.imread fs) [3; 5; 7]%Z 2000%Z
         25000%Z ["c1-0.png"; "c1-1.png"] [0; 1] prev_frame
       = Ok (Some reference, remove_indices))
    ∧ 0 ∉ remove_indices.
Proof.
  intros fs.
  apply (first_decodable_scan_succeeds (H := Demo.demo_imaging)
           Demo.folder_path (Demo.imread fs) [3; 5; 7]%Z 2000%Z 25000%Z
           ["c1-0.png"; "c1-1.png"] [0; 1] 0 "c1-0.png"
           (Demo.Picture 200 200 1)).
  - reflexivity.
  - reflexivity.
  - reflexivity.
  - apply List.Forall_cons; [simpl; lia|].
    apply List.Forall_cons; [simpl; lia|]. apply List.Forall_nil.
Defined.

Lemma removal_list_and_decoding_witness :
  let fs := [("c1-0.png", Demo.frame 1); ("c1-1.png", Demo.corrupt)] in
  let files := ["c1-0.png"; "c1-1.png"] in
  (1 ∈ [0; 1] ->
   (∃ file_name, files !! 1 = Some file_name
      ∧ Demo.imread fs (os_path_join Demo.folder_path file_name) = None) ->
   1 ∈ [1])
  ∧ (1 ∈ [1] ->
     1 ∈ [0; 1]
     ∧ ((∃ file_name, files !! 1 = Some file_name
           ∧ Demo.imread fs (os_path_join Demo.folder_path file_name) = None)
        ∨ [0; 1] !! 0 ≠ Some 1)).
Proof.
  intros fs files.
  apply (removal_list_and_decoding (H := Demo.demo_imaging) Demo.folder_path
           (Demo.imread fs) [3; 5; 7]%Z 2000%Z 25000%Z files [0; 1] None
           (Some (Demo.Picture 200 200 1)) [1] 1).
  vm_compute. reflexivity.
Defined.

Lemma undecodable_entry_isolated_witness :
  let fs := [("c1-0.png", Demo.frame 1); ("c1-1.png", Demo.corrupt);
             ("c1-2.png", Demo.frame 1)] in
  let files := ["c1-0.png"; "c1-1.png"; "c1-2.png"] in
  ∃ rem1 rem2,
    [2] = rem1 ++ rem2 ∧ rem1 `sublist_of` [0] ∧ rem2 `sublist_of` [2]
    ∧ scan_camera Demo.folder_path (Demo.imread fs) [3; 5; 7]%Z 2000%Z
        25000%Z files ([0] ++ 1 :: [2]) None
      = Ok (Some (Demo.Picture 200 200 1), rem1 ++ 1 :: rem2).
Proof.
  intros fs files.
  destruct (undecodable_entry_isolated (H := Demo.demo_imaging)
              Demo.folder_path (Demo.imread fs) [3; 5; 7]%Z 2000%Z 25000%Z
              files [0] [2] 1 "c1-1.png" None) as [Hok _];
    [done | reflexivity | reflexivity |].
  apply Hok. vm_compute. reflexivity.
Defined.

Lemma cameras_independent_when_first_frames_decode_witness :
  let fs := [("a-1.png", Demo.frame 1); ("b-1.png", Demo.frame 1);
             ("b-2.png", Demo.frame 1)] in
  let files := ["a-1.png"; "b-1.png"; "b-2.png"] in
  let d := [("a", [0]); ("b", [1; 2])] in
  ∃ non_essential_data,
    decision_loop Demo.folder_path (Demo.imread fs) [3; 5; 7]%Z 2000%Z
      25000%Z d files = Ok non_essential_data
    ∧ Forall2 (fun item out : string * list nat =>
                 out.1 = item.1
                 ∧ ∃ reference,
                     scan_camera Demo.folder_path (Demo.imread fs)
                       [3; 5; 7]%Z 2000%Z 25000%Z files item.2 None
                     = Ok (Some reference, out.2))
        d non_essential_data.
Proof.
  intros fs files d.
  apply (cameras_independent_when_first_frames_decode
           (H := Demo.demo_imaging) Demo.folder_path (Demo.imread fs)
           [3; 5; 7]%Z 2000%Z 25000%Z (Demo.listdir fs)).
  - vm_compute. reflexivity.
  - apply List.Forall_cons;
      [by exists 0, "a-1.png", (Demo.Picture 200 200 1)|].
    apply List.Forall_cons;
      [by exists 1, "b-1.png", (Demo.Picture 200 200 1)|].
    apply List.Forall_nil.
Defined.

Lemma run_errors_witness :
  let fs := [("c1-0.png", Demo.corrupt); ("c1-1.png", Demo.frame 1)] in
  @Raise () UnboundLocalError ≠ Raise IndexError
  ∧ (@Raise () UnboundLocalError = Raise UnboundLocalError ->
     (Demo.run fs).1 = Demo.initial_world fs).
Proof.
  intros fs.
  destruct (run_errors (H := Demo.demo_imaging) Demo.folder_path
              (Demo.imread fs) [3; 5; 7]%Z 2000%Z 25000%Z (Demo.listdir fs)
              (Demo.initial_world fs) (Demo.run fs).1
              (Raise UnboundLocalError)) as (Hidx & Hsame & _);
    [vm_compute; reflexivity|].
  split; [exact Hidx|exact Hsame].
Defined.

Lemma removal_pass_disk_effect_witness :
  let files := ["c10-0.png"; "c10-1.png"; "c20-0.png"] in
  let data := [("c10", [1]); ("c20", [])] in
  let w := World (list_to_set (os_path_join "data" <$> files)) [] in
  disk (remove_ids "data" data files w).1
  = disk w ∖ list_to_set (path_at "data" files <$> concat data.*2).
Proof.
  intros files data w.
  destruct (removal_pass_disk_effect "data" files data w
              (remove_ids "data" data files w).1 (Ok ())) as (_ & _ & Heq);
    [vm_compute; reflexivity|].
  exact (Heq eq_refl).
Defined.

Lemma no_separator_no_camera_witness :
  get_camera_id_indices (Some ["c1.png"; "notes-1.txt"])
  = Ok ([], png_files ["c1.png"; "notes-1.txt"]).
Proof.
  apply no_separator_no_camera. intros f Hf Hpng.
  apply elem_of_cons in Hf as [->|Hf]; [by split|].
  apply elem_of_cons in Hf as [->|Hf]; [by vm_compute in Hpng|].
  by apply elem_of_nil in Hf.
Defined.

Lemma no_separator_no_removal_witness :
  let fs := [("c1.png", Demo.frame 1); ("c2.png", Demo.frame 1)] in
  Demo.run fs = (Demo.initial_world fs, Ok ()).
Proof.
  intros fs.
  apply (no_separator_no_removal (H := Demo.demo_imaging)).
  intros f Hf Hpng.
  apply elem_of_cons in Hf as [->|Hf]; [by split|].
  apply elem_of_cons in Hf as [->|Hf]; [by split|].
  by apply elem_of_nil in Hf.
Defined.

Lemma removal_pass_completes_only_if_witness :
  let files := ["c10-0.png"; "c10-1.png"; "c20-0.png"] in
  let data := [("c10", [1]); ("c20", [2])] in
  let w := World (list_to_set (os_path_join "data" <$> files)) [] in
  deletable "data" files (disk w) (concat data.*2).
Proof.
  intros files data w.
  apply (removal_pass_completes_only_if "data" files data w).
  vm_compute. reflexivity.
Defined.
